(** * generate_icon.py: the icon renderer, embedded and verified

    The script is one straight line of drawing calls on a shared canvas,
    followed by a best-effort text overlay and a save.  The embedding keeps
    that shape:

    - [PyFloat] is Python's [float] (IEEE 754 binary64, round to nearest
      even) for the gradient, where every operation is a basic one and the
      result is determined bit for bit;
    - the marker and hand end points go through [math.radians], [math.cos]
      and [math.sin], which the platform's libm provides; they are computed
      over a [FloatEnv], rounded operations on the reals, with the usual
      error bounds stated where a theorem needs them;
    - the canvas is an [Image] whose pixel data every draw call repaints
      through a mask; a row of the gradient is a horizontal run and a
      filled ellipse covers the inscribed one within its box, and what the
      library's rasterisers paint beyond that (wide slanted lines, the rim
      of an ellipse) is left to the environment;
    - the script runs in a state and exception monad [M] over [State],
      which also keeps the list of calls made, standard output and the
      files written. *)

From Stdlib Require Import ZArith QArith List Lia String Bool.
From Stdlib Require Import Reals Lra Psatz FunctionalExtensionality.
From Stdlib Require Import Floats.SpecFloat.
Import ListNotations.

Open Scope Z_scope.

(** ** Python floats *)

Module PyFloat.

Definition prec : Z := 53.
Definition emax : Z := 1024.

Definition float := spec_float.

(** [float(z)] for an integer [z], correctly rounded (exact below 2^53). *)
Definition of_int (z : Z) : float := binary_normalize prec emax z 0 false.

Definition add : float -> float -> float := SFadd prec emax.
Definition sub : float -> float -> float := SFsub prec emax.
Definition mul : float -> float -> float := SFmul prec emax.
Definition div : float -> float -> float := SFdiv prec emax.

(** [a / b] on two integers: true division. *)
Definition truediv (a b : Z) : float := div (of_int a) (of_int b).

(** The literals of the script. *)
Definition lit_1_0 : float := S754_finite false 4503599627370496 (-52).
Definition lit_0_2 : float := S754_finite false 7205759403792794 (-55).

(** [int(f)]: truncation toward zero; infinities and NaN raise. *)
Definition int (f : float) : option Z :=
  match f with
  | S754_zero _ => Some 0
  | S754_finite s m e =>
      let a := match e with
               | Z0 => Z.pos m
               | Zpos p => Z.pos m * 2 ^ Z.pos p
               | Zneg p => Z.pos m / 2 ^ Z.pos p
               end in
      Some (if s then - a else a)
  | S754_infinity _ => None
  | S754_nan => None
  end.

End PyFloat.

(** ** The gradient colours (source lines 6, 11-16) *)

Definition size : Z := 1024.

Definition range (n : Z) : list Z := map Z.of_nat (seq 0 (Z.to_nat n)).

Definition ratio (y : Z) : PyFloat.float := PyFloat.truediv y size.

Definition r (y : Z) : option Z :=
  PyFloat.int
    (PyFloat.mul (PyFloat.of_int 255)
       (PyFloat.sub PyFloat.lit_1_0 (PyFloat.mul (ratio y) PyFloat.lit_0_2))).

Definition g (y : Z) : option Z :=
  PyFloat.int
    (PyFloat.add (PyFloat.of_int 76) (PyFloat.mul (ratio y) (PyFloat.of_int 100))).

Definition b (y : Z) : option Z :=
  PyFloat.int
    (PyFloat.add (PyFloat.of_int 76) (PyFloat.mul (ratio y) (PyFloat.of_int 50))).

(** The same three channels as the specification words them: exact
    arithmetic on rationals, truncated to an integer. *)

Definition Qtrunc (q : Q) : Z := Z.quot (Qnum q) (Z.pos (Qden q)).

Definition spec_ratio (y : Z) : Q := inject_Z y / 1024.

Definition spec_r (y : Z) : Z := Qtrunc (255 * (1 - (2 # 10) * spec_ratio y)).
Definition spec_g (y : Z) : Z := Qtrunc (76 + 100 * spec_ratio y).
Definition spec_b (y : Z) : Z := Qtrunc (76 + 50 * spec_ratio y).

(** ** Colours, fills and images *)

Definition Color : Type := Z * Z * Z.

Inductive Fill : Type :=
| FillRGB (c : Z * Z * Z)
| FillRGBA (c : Z * Z * Z * Z)
| FillName (name : string).

(** The ink an RGB canvas gets out of a fill: a fourth component is
    dropped, a name is looked up. *)
Definition getink (f : Fill) : option Color :=
  match f with
  | FillRGB c => Some c
  | FillRGBA (cr, cg, cb, _) => Some (cr, cg, cb)
  | FillName name =>
      if String.eqb name "white" then Some (255, 255, 255)
      else if String.eqb name "black" then Some (0, 0, 0)
      else None
  end.

Inductive Mode : Type := ModeRGB | ModeRGBA | ModeL.

Definition Pixels : Type := Z -> Z -> Color.

Record Image : Type := mkImage {
  im_mode : Mode;
  im_width : Z;
  im_height : Z;
  im_data : Pixels
}.

(** [Image.new(mode, (w, h))]: every pixel black. *)
Definition Image_new (mode : Mode) (w h : Z) : Image :=
  mkImage mode w h (fun _ _ => (0, 0, 0)).

Definition in_image (im : Image) (x y : Z) : bool :=
  (0 <=? x) && (x <? im_width im) && (0 <=? y) && (y <? im_height im).

(** Every draw call repaints the pixels of a mask, clipped to the image. *)
Definition paint (mask : Z -> Z -> bool) (ink : Color) (im : Image) : Image :=
  mkImage (im_mode im) (im_width im) (im_height im)
    (fun x y => if in_image im x y && mask x y then ink else im_data im x y).

(** Python numbers as coordinates. *)
Inductive num : Type :=
| Int (z : Z)
| Flt (x : R).

Definition num_R (n : num) : R :=
  match n with
  | Int z => IZR z
  | Flt x => x
  end.

(** The pixels of the ellipse inscribed in the box [x0, y0, x1, y1],
    tested on doubled coordinates. *)
Definition inscribed (bbox : Z * Z * Z * Z) (x y : Z) : bool :=
  let '(x0, y0, x1, y1) := bbox in
  let w := x1 - x0 in
  let h := y1 - y0 in
  (2 * x - (x0 + x1)) ^ 2 * h ^ 2 + (2 * y - (y0 + y1)) ^ 2 * w ^ 2 <=? w ^ 2 * h ^ 2.

Definition in_box (bbox : Z * Z * Z * Z) (x y : Z) : bool :=
  let '(x0, y0, x1, y1) := bbox in
  (x0 <=? x) && (x <=? x1) && (y0 <=? y) && (y <=? y1).

(** A filled ellipse stays in its box and covers the inscribed ellipse.
    On the rim the library's rasteriser rounds outwards: which further
    pixels of the box it paints is [raster], which the model leaves open. *)
Definition ellipse_mask (raster : Z * Z * Z * Z -> Z -> Z -> bool)
    (bbox : Z * Z * Z * Z) (x y : Z) : bool :=
  in_box bbox x y && (inscribed bbox x y || raster bbox x y).

(** A line of width at most one between integer points on one row is a
    horizontal run; every other line goes to the library's general
    rasteriser [raster], which the model leaves open. *)
Definition line_mask (raster : list (num * num) -> Z -> Z -> Z -> bool)
    (xy : list (num * num)) (width : Z) : Z -> Z -> bool :=
  match xy with
  | [(Int x0, Int y0); (Int x1, Int y1)] =>
      if (y0 =? y1) && (width <=? 1) then
        fun x y => (y =? y0) && (Z.min x0 x1 <=? x) && (x <=? Z.max x0 x1)
      else raster xy width
  | _ => raster xy width
  end.

(** ** Exceptions and the environment *)

(** An exception: whether it derives from [Exception] (a bare [except:]
    catches every one, [except Exception] only these) and its text. *)
Record Exn : Type := mkExn {
  exn_is_Exception : bool;
  exn_text : string
}.

Inductive result (A : Type) : Type :=
| Ok (a : A)
| Raise (e : Exn).

Arguments Ok {A} a.
Arguments Raise {A} e.

(** Rounded arithmetic and libm, on the reals a float stands for. *)
Record FloatEnv : Type := mkFloatEnv {
  fl_add : R -> R -> R;
  fl_mul : R -> R -> R;
  math_radians : R -> R;
  math_cos : R -> R;
  math_sin : R -> R
}.

(** What the script asks of the imaging library, the fonts installed and
    the file system. *)
Record Env (Font : Type) : Type := mkEnv {
  raster_line : list (num * num) -> Z -> Z -> Z -> bool;
  raster_ellipse : Z * Z * Z * Z -> Z -> Z -> bool;
  truetype : string -> Z -> result Font;
  load_default : result Font;
  textbbox : Z * Z -> string -> Font -> result (Z * Z * Z * Z);
  text : Pixels -> Z * Z -> string -> Fill -> Font -> result Pixels;
  png_encode : Image -> string;
  write_file : string -> string -> option Exn
}.

Arguments raster_line {Font} _ _ _ _ _.
Arguments raster_ellipse {Font} _ _ _ _.
Arguments truetype {Font} _ _ _.
Arguments load_default {Font} _.
Arguments textbbox {Font} _ _ _ _.
Arguments text {Font} _ _ _ _ _ _.
Arguments png_encode {Font} _ _.
Arguments write_file {Font} _ _ _.

(** The calls the script makes, in the order it makes them. *)
Inductive Call (Font : Type) : Type :=
| CallLine (xy : list (num * num)) (fill : Fill) (width : Z)
| CallEllipse (bbox : Z * Z * Z * Z) (fill : Fill)
| CallTruetype (path : string) (font_size : Z)
| CallLoadDefault
| CallTextbbox (xy : Z * Z) (txt : string) (font : Font)
| CallText (xy : Z * Z) (txt : string) (fill : Fill) (font : Font)
| CallSave (path : string).

Arguments CallLine {Font} xy fill width.
Arguments CallEllipse {Font} bbox fill.
Arguments CallTruetype {Font} path font_size.
Arguments CallLoadDefault {Font}.
Arguments CallTextbbox {Font} xy txt font.
Arguments CallText {Font} xy txt fill font.
Arguments CallSave {Font} path.

Record State (Font : Type) : Type := mkState {
  image : Image;
  stdout : list string;
  calls : list (Call Font);
  files : list (string * string)
}.

Arguments mkState {Font} image stdout calls files.
Arguments image {Font} s.
Arguments stdout {Font} s.
Arguments calls {Font} s.
Arguments files {Font} s.

(** ** The state and exception monad *)

Definition M (Font A : Type) : Type := State Font -> result A * State Font.

Definition ret {Font A : Type} (a : A) : M Font A := fun s => (Ok a, s).

Definition bind {Font A B : Type} (c : M Font A) (k : A -> M Font B) : M Font B :=
  fun s =>
    match c s with
    | (Ok a, s') => k a s'
    | (Raise e, s') => (Raise e, s')
    end.

Definition raise {Font A : Type} (e : Exn) : M Font A := fun s => (Raise e, s).

(** [try: c  except <class>: h]; what [c] did to the state before raising
    stays done. *)
Definition try_except {Font A : Type}
    (c : M Font A) (catches : Exn -> bool) (h : Exn -> M Font A) : M Font A :=
  fun s =>
    match c s with
    | (Ok a, s') => (Ok a, s')
    | (Raise e, s') => if catches e then h e s' else (Raise e, s')
    end.

Fixpoint for_each {Font A : Type} (l : list A) (body : A -> M Font unit) : M Font unit :=
  match l with
  | [] => ret tt
  | a :: l' => bind (body a) (fun _ => for_each l' body)
  end.

Declare Scope monad_scope.
Delimit Scope monad_scope with monad.
Notation "x <- c ;; k" := (bind c (fun x => k))
  (at level 61, c at next level, right associativity) : monad_scope.
Notation "c ;; k" := (bind c (fun _ => k))
  (at level 61, right associativity) : monad_scope.

Definition exec {Font A : Type} (c : M Font A) (s : State Font) : State Font := snd (c s).
Definition outcome {Font A : Type} (c : M Font A) (s : State Font) : result A := fst (c s).

(** ** The script *)

Definition center : Z := size / 2.
Definition clock_radius : Z := 380.
Definition marker_color : Z * Z * Z := (255, 102, 77).
Definition outer_radius : Z := clock_radius - 30.
Definition inner_radius : Z := clock_radius - 80.
Definition hour_length : Z := 180.
Definition minute_length : Z := 260.
Definition font_size : Z := 180.
Definition shadow_offset : Z := 8.
Definition text_AT : string := "AT".
Definition font_path_1 : string := "/System/Library/Fonts/SFCompact.ttf".
Definition font_path_2 : string := "/System/Library/Fonts/Helvetica.ttc".
Definition output_path : string :=
  "/Users/jamilkabir/Desktop/code/apple/iphone/ADHDTimerApp/ADHDTimerApp/Assets.xcassets/AppIcon.appiconset/AppIcon.png".

Section Script.

Variable Font : Type.
Variable fl : FloatEnv.
Variable env : Env Font.

Local Open Scope monad_scope.

(** *** Calls into the library *)

Definition log (c : Call Font) (s : State Font) : State Font :=
  mkState (image s) (stdout s) (calls s ++ [c]) (files s).

Definition set_image (im : Image) (s : State Font) : State Font :=
  mkState im (stdout s) (calls s) (files s).

Definition print (line : string) : M Font unit :=
  fun s => (Ok tt, mkState (image s) (stdout s ++ [line]) (calls s) (files s)).

Definition int_of (v : option Z) : M Font Z :=
  match v with
  | Some z => ret z
  | None => raise (mkExn true "cannot convert float to integer")
  end.

Definition draw_shape (c : Call Font) (mask : Z -> Z -> bool) (fill : Fill) : M Font unit :=
  fun s =>
    match getink fill with
    | Some ink => (Ok tt, set_image (paint mask ink (image s)) (log c s))
    | None => (Raise (mkExn true "unknown color specifier"), log c s)
    end.

Definition draw_line (xy : list (num * num)) (fill : Fill) (width : Z) : M Font unit :=
  draw_shape (CallLine xy fill width) (line_mask (raster_line env) xy width) fill.

Definition draw_ellipse (bbox : Z * Z * Z * Z) (fill : Fill) : M Font unit :=
  draw_shape (CallEllipse bbox fill) (ellipse_mask (raster_ellipse env) bbox) fill.

Definition ImageFont_truetype (path : string) (sz : Z) : M Font Font :=
  fun s => (truetype env path sz, log (CallTruetype path sz) s).

Definition ImageFont_load_default : M Font Font :=
  fun s => (load_default env, log CallLoadDefault s).

Definition draw_textbbox (xy : Z * Z) (txt : string) (font : Font) : M Font (Z * Z * Z * Z) :=
  fun s => (textbbox env xy txt font, log (CallTextbbox xy txt font) s).

(** A text draw that raises leaves the pixels as they were. *)
Definition draw_text (xy : Z * Z) (txt : string) (fill : Fill) (font : Font) : M Font unit :=
  fun s =>
    let s' := log (CallText xy txt fill font) s in
    match text env (im_data (image s)) xy txt fill font with
    | Ok px =>
        (Ok tt,
         set_image (mkImage (im_mode (image s)) (im_width (image s))
                      (im_height (image s)) px) s')
    | Raise e => (Raise e, s')
    end.

Definition image_save (path : string) : M Font unit :=
  fun s =>
    let s' := log (CallSave path) s in
    let bytes := png_encode env (image s) in
    match write_file env path bytes with
    | None =>
        (Ok tt, mkState (image s') (stdout s') (calls s') (files s' ++ [(path, bytes)]))
    | Some e => (Raise e, s')
    end.

(** *** Lines 10-17: the gradient *)

Definition gradient_row (y : Z) : M Font unit :=
  rv <- int_of (r y) ;;
  gv <- int_of (g y) ;;
  bv <- int_of (b y) ;;
  draw_line [(Int 0, Int y); (Int size, Int y)] (FillRGB (rv, gv, bv)) 0.

Definition gradient_step : M Font unit := for_each (range size) gradient_row.

(** *** Lines 19-26: the clock face *)

Definition clock_face_step : M Font unit :=
  draw_ellipse
    (center - clock_radius, center - clock_radius,
     center + clock_radius, center + clock_radius)
    (FillName "white").

(** *** Lines 28-40: the hour markers *)

Definition polar (length : Z) (angle : R) : R * R :=
  (fl_add fl (IZR center) (fl_mul fl (IZR length) (math_cos fl angle)),
   fl_add fl (IZR center) (fl_mul fl (IZR length) (math_sin fl angle))).

Definition marker_degrees (i : Z) : Z := i * 30 - 90.
Definition marker_angle (i : Z) : R := math_radians fl (IZR (marker_degrees i)).

Definition x1 (i : Z) : R := fst (polar outer_radius (marker_angle i)).
Definition y1 (i : Z) : R := snd (polar outer_radius (marker_angle i)).
Definition x2 (i : Z) : R := fst (polar inner_radius (marker_angle i)).
Definition y2 (i : Z) : R := snd (polar inner_radius (marker_angle i)).

Definition marker_call (i : Z) : Call Font :=
  CallLine [(Flt (x1 i), Flt (y1 i)); (Flt (x2 i), Flt (y2 i))] (FillRGB marker_color) 20.

Definition marker (i : Z) : M Font unit :=
  draw_line [(Flt (x1 i), Flt (y1 i)); (Flt (x2 i), Flt (y2 i))] (FillRGB marker_color) 20.

Definition markers_step : M Font unit := for_each (range 12) marker.

(** *** Lines 42-55: the hands *)

Definition hour_degrees : Z := 10 * 30 - 90.
Definition hour_angle : R := math_radians fl (IZR hour_degrees).
Definition hour_x : R := fst (polar hour_length hour_angle).
Definition hour_y : R := snd (polar hour_length hour_angle).

Definition hour_hand : M Font unit :=
  draw_line [(Int center, Int center); (Flt hour_x, Flt hour_y)] (FillRGB (51, 51, 51)) 30.

Definition minute_degrees : Z := 10 - 90.
Definition minute_angle : R := math_radians fl (IZR minute_degrees).
Definition minute_x : R := fst (polar minute_length minute_angle).
Definition minute_y : R := snd (polar minute_length minute_angle).

Definition minute_hand : M Font unit :=
  draw_line [(Int center, Int center); (Flt minute_x, Flt minute_y)] (FillRGB (77, 77, 77)) 24.

(** *** Lines 57-61: the centre hub *)

Definition hub_bbox : Z * Z * Z * Z := (center - 40, center - 40, center + 40, center + 40).

Definition hub_step : M Font unit := draw_ellipse hub_bbox (FillRGB marker_color).

(** *** Lines 63-94: the text overlay *)

Definition load_font : M Font Font :=
  try_except (ImageFont_truetype font_path_1 font_size) (fun _ => true)
    (fun _ =>
       try_except (ImageFont_truetype font_path_2 font_size) (fun _ => true)
         (fun _ => ImageFont_load_default)).

Definition text_x (bbox : Z * Z * Z * Z) : Z :=
  let '(b0, _, b2, _) := bbox in
  let text_width := b2 - b0 in
  (size - text_width) / 2.

Definition text_y : Z := size - 200.

(** The body of the [try].  The script also computes
    [text_height = bbox[3] - bbox[1]] and never uses it. *)
Definition text_body : M Font unit :=
  font <- load_font ;;
  bbox <- draw_textbbox (0, 0) text_AT font ;;
  draw_text (text_x bbox + shadow_offset, text_y + shadow_offset) text_AT
    (FillRGBA (0, 0, 0, 128)) font ;;
  draw_text (text_x bbox, text_y) text_AT (FillName "white") font.

Definition text_step : M Font unit :=
  try_except text_body exn_is_Exception
    (fun e => print ("Could not add text: " ++ exn_text e)).

(** *** Lines 96-99: saving *)

Definition save_step : M Font unit :=
  image_save output_path ;;
  print ("App icon saved to: " ++ output_path).

(** *** The whole script *)

Definition clock_steps : M Font unit :=
  gradient_step ;; clock_face_step ;; markers_step ;;
  hour_hand ;; minute_hand ;; hub_step.

Definition main : M Font unit :=
  clock_steps ;; text_step ;; save_step.

(** Lines 6-8: the canvas, before anything is drawn. *)
Definition start : State Font :=
  mkState (Image_new ModeRGB size size) [] [] [].

End Script.

Arguments log {Font} c s.
Arguments set_image {Font} im s.
Arguments print {Font} line s.
Arguments draw_shape {Font} c mask fill s.
Arguments draw_line {Font} env xy fill width s.
Arguments draw_ellipse {Font} env bbox fill s.
Arguments draw_text {Font} env xy txt fill font s.
Arguments image_save {Font} env path s.
Arguments gradient_row {Font} env y s.
Arguments gradient_step {Font} env s.
Arguments clock_face_step {Font} env s.
Arguments marker_call {Font} fl i.
Arguments marker {Font} fl env i s.
Arguments markers_step {Font} fl env s.
Arguments hour_hand {Font} fl env s.
Arguments minute_hand {Font} fl env s.
Arguments hub_step {Font} env s.
Arguments load_font {Font} env s.
Arguments text_body {Font} env s.
Arguments text_step {Font} env s.
Arguments save_step {Font} env s.
Arguments clock_steps {Font} fl env s.
Arguments main {Font} fl env s.
Arguments start {Font}.

(** ** Checks the gradient theorems compute *)

Definition channels_agree (y : Z) : bool :=
  match r y, g y, b y with
  | Some rv, Some gv, Some bv =>
      (rv =? spec_r y) && (gv =? spec_g y) && (bv =? spec_b y)
  | _, _, _ => false
  end.

Definition channels_in_range (y : Z) : bool :=
  (204 <=? spec_r y) && (spec_r y <=? 255) &&
  (76 <=? spec_g y) && (spec_g y <=? 176) &&
  (76 <=? spec_b y) && (spec_b y <=? 126).

(** ** Draw calls as shapes

    A draw call that finds its ink is a [Shape]: the call as logged, the
    mask it repaints and the ink.  The clock part of the script is a list
    of shapes applied in order. *)

Record Shape (Font : Type) : Type := mkShape {
  sh_call : Call Font;
  sh_mask : Z -> Z -> bool;
  sh_ink : Color
}.

Arguments mkShape {Font} sh_call sh_mask sh_ink.
Arguments sh_call {Font} s.
Arguments sh_mask {Font} s.
Arguments sh_ink {Font} s.

Definition apply_shape {Font : Type} (sh : Shape Font) (s : State Font) : State Font :=
  set_image (paint (sh_mask sh) (sh_ink sh) (image s)) (log (sh_call sh) s).

Definition run_shapes {Font : Type} (shs : list (Shape Font)) (s : State Font) : State Font :=
  fold_left (fun s sh => apply_shape sh s) shs s.

Definition paint_all {Font : Type} (shs : list (Shape Font)) (im : Image) : Image :=
  fold_left (fun im sh => paint (sh_mask sh) (sh_ink sh) im) shs im.

Definition gradient_color (y : Z) : Color := (spec_r y, spec_g y, spec_b y).

Definition line_shape {Font : Type} (env : Env Font)
    (xy : list (num * num)) (ink : Color) (width : Z) : Shape Font :=
  mkShape (CallLine xy (FillRGB ink) width) (line_mask (raster_line env) xy width) ink.

Definition gradient_shape {Font : Type} (env : Env Font) (y : Z) : Shape Font :=
  line_shape env [(Int 0, Int y); (Int size, Int y)] (gradient_color y) 0.

Definition face_bbox : Z * Z * Z * Z :=
  (center - clock_radius, center - clock_radius,
   center + clock_radius, center + clock_radius).

Definition face_shape {Font : Type} (env : Env Font) : Shape Font :=
  mkShape (CallEllipse face_bbox (FillName "white"))
    (ellipse_mask (raster_ellipse env) face_bbox) (255, 255, 255).

Definition marker_shape {Font : Type} (fl : FloatEnv) (env : Env Font) (i : Z) : Shape Font :=
  line_shape env [(Flt (x1 fl i), Flt (y1 fl i)); (Flt (x2 fl i), Flt (y2 fl i))]
    marker_color 20.

Definition hour_shape {Font : Type} (fl : FloatEnv) (env : Env Font) : Shape Font :=
  line_shape env [(Int center, Int center); (Flt (hour_x fl), Flt (hour_y fl))] (51, 51, 51) 30.

Definition minute_shape {Font : Type} (fl : FloatEnv) (env : Env Font) : Shape Font :=
  line_shape env [(Int center, Int center); (Flt (minute_x fl), Flt (minute_y fl))]
    (77, 77, 77) 24.

Definition hub_shape {Font : Type} (env : Env Font) : Shape Font :=
  mkShape (CallEllipse hub_bbox (FillRGB marker_color))
    (ellipse_mask (raster_ellipse env) hub_bbox) marker_color.

Definition hands_shapes {Font : Type} (fl : FloatEnv) (env : Env Font) : list (Shape Font) :=
  [hour_shape fl env; minute_shape fl env].

Definition clock_shapes {Font : Type} (fl : FloatEnv) (env : Env Font) : list (Shape Font) :=
  map (gradient_shape env) (range size) ++ [face_shape env] ++
  map (marker_shape fl env) (range 12) ++ hands_shapes fl env ++ [hub_shape env].

(** Two images of the same mode and dimensions. *)
Definition same_frame (im1 im2 : Image) : Prop :=
  im_mode im1 = im_mode im2 /\ im_width im1 = im_width im2 /\
  im_height im1 = im_height im2.

(** ** Environments to run the script in *)

(** A text draw that paints a ten by ten block at the anchor. *)
Definition block_text (px : Pixels) (xy : Z * Z) (txt : string) (fill : Fill)
    (font : string) : result Pixels :=
  match getink fill with
  | Some ink =>
      Ok (fun x y =>
            if (fst xy <=? x) && (x <? fst xy + 10) && (snd xy <=? y) && (y <? snd xy + 10)
            then ink else px x y)
  | None => Raise (mkExn true "unknown color specifier")
  end.

Definition no_such_file : Exn := mkExn true "cannot open resource".

Definition measure_AT (xy : Z * Z) (txt font : string) : result (Z * Z * Z * Z) :=
  Ok (fst xy, snd xy + 40, fst xy + 240, snd xy + 170).

(** A machine: which font files are installed (a font is named by its
    path), whether the built-in font loads, how text is drawn, and which
    paths cannot be written.  Its general line rasteriser paints nothing
    and its ellipses are the inscribed ones, no rim added. *)
Definition machine (installed : string -> bool) (default_font : result string)
    (draw : Pixels -> Z * Z -> string -> Fill -> string -> result Pixels)
    (disk : string -> option Exn) : Env string :=
  mkEnv string
    (fun _ _ _ _ => false)
    (fun _ _ _ => false)
    (fun path _ => if installed path then Ok path else Raise no_such_file)
    default_font
    measure_AT
    draw
    (fun im => "PNG"%string)
    (fun path _ => disk path).

(** The author's machine: both fonts installed, the output directory there. *)
Definition mac_env : Env string :=
  machine (fun _ => true) (Ok "default"%string) block_text (fun _ => None).

(** Only the second font file is there. *)
Definition helvetica_env : Env string :=
  machine (String.eqb font_path_2) (Ok "default"%string) block_text (fun _ => None).

(** No font file, and the built-in font does not load either. *)
Definition fontless_env : Env string :=
  machine (fun _ => false) (Raise no_such_file) block_text (fun _ => None).

(** Drawing with a named colour fails; the shadow's tuple works. *)
Definition named_fill_fails (px : Pixels) (xy : Z * Z) (txt : string) (fill : Fill)
    (font : string) : result Pixels :=
  match fill with
  | FillName _ => Raise (mkExn true "cannot allocate ink")
  | _ => block_text px xy txt fill font
  end.

Definition white_fails_env : Env string :=
  machine (fun _ => true) (Ok "default"%string) named_fill_fails (fun _ => None).

Definition permission_denied : Exn := mkExn true "No such file or directory".

(** The author's machine with the output directory missing. *)
Definition readonly_env : Env string :=
  machine (fun _ => true) (Ok "default"%string) block_text (fun _ => Some permission_denied).

(** Arithmetic without rounding error. *)
Definition exact_fl : FloatEnv :=
  mkFloatEnv Rplus Rmult (fun d => (d * PI / 180)%R) cos sin.

(** ** Geometry of the end points *)

(** The usual model of rounded arithmetic, on the range the script works
    in: a sum and a product of numbers up to 1024 in size are off by at
    most [u] times the exact result, plus [u] for results too small to be
    normal; [math.radians] of up to 360 degrees, a product by a rounded
    [pi / 180], by four times that; libm's [cos] and [sin] of angles up to
    10 by at most [u]. *)
Definition accurate (u : R) (fl : FloatEnv) : Prop :=
  (forall x y, Rabs x <= 1024 -> Rabs y <= 1024 ->
               Rabs (fl_add fl x y - (x + y)) <= u * (Rabs (x + y) + 1))%R /\
  (forall x y, Rabs x <= 1024 -> Rabs y <= 1024 ->
               Rabs (fl_mul fl x y - x * y) <= u * (Rabs (x * y) + 1))%R /\
  (forall d, Rabs d <= 360 ->
             Rabs (math_radians fl d - d * PI / 180) <= 4 * u * (Rabs (d * PI / 180) + 1))%R /\
  (forall x, Rabs x <= 10 -> Rabs (math_cos fl x - cos x) <= u)%R /\
  (forall x, Rabs x <= 10 -> Rabs (math_sin fl x - sin x) <= u)%R.

(** Binary64 rounds with [u = 2^-53], and a libm good to one unit in the
    last place has [u = 2^-53] on [[-1, 1]]; anything up to [10^-12] will
    do here. *)
Definition small (u : R) : Prop := (0 <= u <= / 1000000000000)%R.

Definition degrees (d : Z) : R := (IZR d * PI / 180)%R.

(** The point at distance [len] from the centre along [d] degrees. *)
Definition ideal_point (len d : Z) : R * R :=
  ((IZR center + IZR len * cos (degrees d))%R,
   (IZR center + IZR len * sin (degrees d))%R).

Definition near (tol : R) (p q : R * R) : Prop :=
  (Rabs (fst p - fst q) <= tol)%R /\ (Rabs (snd p - snd q) <= tol)%R.

Definition dist2 (p q : R * R) : R :=
  ((fst p - fst q) * (fst p - fst q) + (snd p - snd q) * (snd p - snd q))%R.

Definition centre : R * R := (IZR center, IZR center).

Definition in_disc (rho : R) (z : R * R) : Prop := (dist2 z centre <= rho * rho)%R.

(** The points a line of the given width covers: those within half the
    width of the segment from [p] to [q]. *)
Definition on_stroke (p q : R * R) (width : Z) (z : R * R) : Prop :=
  exists t : R,
    (0 <= t <= 1)%R /\
    (dist2 z ((fst p + t * (fst q - fst p))%R, (snd p + t * (snd q - snd p))%R)
     <= (IZR width / 2) * (IZR width / 2))%R.

(** ** The text overlay and the save, by the answers of the environment *)

Definition logs {Font : Type} (l : list (Call Font)) (s : State Font) : State Font :=
  fold_left (fun s c => log c s) l s.

Definition with_pixels {Font : Type} (px : Pixels) (s : State Font) : State Font :=
  set_image (mkImage (im_mode (image s)) (im_width (image s)) (im_height (image s)) px) s.

Definition printed {Font : Type} (line : string) (s : State Font) : State Font :=
  mkState (image s) (stdout s ++ [line]) (calls s) (files s).

Definition written {Font : Type} (path bytes : string) (s : State Font) : State Font :=
  mkState (image s) (stdout s) (calls s) (files s ++ [(path, bytes)]).

(** The font cascade as a table: the font it ends with, and the load calls
    it takes to get there. *)
Definition pick_font {Font : Type} (env : Env Font) : result Font * list (Call Font) :=
  match truetype env font_path_1 font_size with
  | Ok f => (Ok f, [CallTruetype font_path_1 font_size])
  | Raise _ =>
      match truetype env font_path_2 font_size with
      | Ok f => (Ok f, [CallTruetype font_path_1 font_size;
                        CallTruetype font_path_2 font_size])
      | Raise _ => (load_default env,
                    [CallTruetype font_path_1 font_size;
                     CallTruetype font_path_2 font_size; CallLoadDefault])
      end
  end.

Definition selected_font {Font : Type} (env : Env Font) : result Font := fst (pick_font env).
Definition font_calls {Font : Type} (env : Env Font) : list (Call Font) := snd (pick_font env).

Definition shadow_xy (bbox : Z * Z * Z * Z) : Z * Z :=
  (text_x bbox + shadow_offset, text_y + shadow_offset).
Definition main_xy (bbox : Z * Z * Z * Z) : Z * Z := (text_x bbox, text_y).

Definition shadow_fill : Fill := FillRGBA (0, 0, 0, 128).
Definition white_fill : Fill := FillName "white".

Definition diagnostic (e : Exn) : string := "Could not add text: " ++ exn_text e.
Definition success_line : string := "App icon saved to: " ++ output_path.

(** What the body of the [try] does, by the answers of the environment. *)
Definition text_body_result {Font : Type} (env : Env Font) (s : State Font) :
    result unit * State Font :=
  let s0 := logs (font_calls env) s in
  match selected_font env with
  | Raise e => (Raise e, s0)
  | Ok f =>
      let s1 := log (CallTextbbox (0, 0) text_AT f) s0 in
      match textbbox env (0, 0) text_AT f with
      | Raise e => (Raise e, s1)
      | Ok bbox =>
          let s2 := log (CallText (shadow_xy bbox) text_AT shadow_fill f) s1 in
          match text env (im_data (image s)) (shadow_xy bbox) text_AT shadow_fill f with
          | Raise e => (Raise e, s2)
          | Ok px1 =>
              let s3 := log (CallText (main_xy bbox) text_AT white_fill f)
                          (with_pixels px1 s2) in
              match text env px1 (main_xy bbox) text_AT white_fill f with
              | Raise e => (Raise e, s3)
              | Ok px2 => (Ok tt, with_pixels px2 s3)
              end
          end
      end
  end.

(** The state the clock steps leave, and the script from there. *)
Definition clock_state {Font : Type} (fl : FloatEnv) (env : Env Font) : State Font :=
  run_shapes (clock_shapes fl env) start.

(** A machine like the author's where only the output path can be written. *)
Definition locked_env : Env string :=
  machine (fun _ => true) (Ok "default"%string) block_text
    (fun path => if String.eqb path output_path then None else Some permission_denied).

(** ** Where the primitives lie *)

Definition in_canvas (z : R * R) : Prop :=
  (0 <= fst z < 1024)%R /\ (0 <= snd z < 1024)%R.

Definition box_extent (x0 y0 x1' y1' : Z) (z : R * R) : Prop :=
  (IZR x0 <= fst z <= IZR x1')%R /\ (IZR y0 <= snd z <= IZR y1')%R.

(** The points a call can touch: the stroke of a line, the box of an
    ellipse, the measured box of a text moved to its anchor, each with its
    edges. *)
Definition extent {Font : Type} (env : Env Font) (c : Call Font) (z : R * R) : Prop :=
  match c with
  | CallLine [(px, py); (qx, qy)] _ width =>
      on_stroke (num_R px, num_R py) (num_R qx, num_R qy) width z
  | CallEllipse (x0, y0, x1', y1') _ => box_extent x0 y0 x1' y1' z
  | CallText (x, y) txt _ font =>
      match textbbox env (0, 0) txt font with
      | Ok (b0, b1, b2, b3) => box_extent (x + b0) (y + b1) (x + b2) (y + b3) z
      | Raise _ => False
      end
  | _ => False
  end.

(** The claim as the specification words it. *)
Definition all_within_canvas {Font : Type} (fl : FloatEnv) (env : Env Font) : Prop :=
  forall c z, In c (calls (exec (main fl env) start)) -> extent env c z -> in_canvas z.

(** A machine like the author's whose first font file holds a font of tall
    line metrics: at size 180 the baseline of [AT] lies 200 below the
    anchor. *)
Definition tall_font_env : Env string :=
  mkEnv string
    (raster_line mac_env) (raster_ellipse mac_env)
    (truetype mac_env) (load_default mac_env)
    (fun xy _ _ => Ok (fst xy, snd xy + 60, fst xy + 240, snd xy + 200))
    (text mac_env) (png_encode mac_env) (write_file mac_env).

(** What the text overlay and the save can add to the calls. *)
Definition text_step_call {Font : Type} (env : Env Font) (c : Call Font) : Prop :=
  match c with
  | CallLine _ _ _ => False
  | CallEllipse _ _ => False
  | CallText xy txt _ f =>
      txt = text_AT /\
      exists bbox, textbbox env (0, 0) text_AT f = Ok bbox /\
                   (xy = shadow_xy bbox \/ xy = main_xy bbox)
  | _ => True
  end.

Definition clock_bound {Font : Type} (c : Call Font) (z : R * R) : Prop :=
  (0 <= fst z <= 1024)%R /\ (0 <= snd z < 1024)%R /\
  (fst z = 1024%R ->
   exists y fill, 0 <= y < 1024 /\ c = CallLine [(Int 0, Int y); (Int 1024, Int y)] fill 0).

(** ** Further checks and environments *)

(** From one row to the next no channel moves by more than one: red
    never up, green and blue never down. *)
Definition channels_step (y : Z) : bool :=
  match r y, g y, b y, r (y + 1), g (y + 1), b (y + 1) with
  | Some r0, Some g0, Some b0, Some r1', Some g1', Some b1' =>
      (r1' <=? r0) && (r0 <=? r1' + 1) &&
      (g0 <=? g1') && (g1' <=? g0 + 1) &&
      (b0 <=? b1') && (b1' <=? b0 + 1)
  | _, _, _, _, _, _ => false
  end.

(** Control-C while the default font loads: not an [Exception]. *)
Definition keyboard_interrupt : Exn := mkExn false "KeyboardInterrupt".

Definition interrupted_env : Env string :=
  machine (fun _ => false) (Raise keyboard_interrupt) block_text (fun _ => None).

(** The left and right margins of the white text: from the canvas edge to
    the measured box moved to the anchor. *)
Definition left_margin (bbox : Z * Z * Z * Z) : Z :=
  let '(b0, _, _, _) := bbox in text_x bbox + b0.

Definition right_margin (bbox : Z * Z * Z * Z) : Z :=
  let '(_, _, b2, _) := bbox in size - (text_x bbox + b2).

(** How far a point lies from the centre along the unit direction
    [(dc, ds)]. *)
Definition radial (dc ds : R) (p : R * R) : R :=
  ((fst p - IZR center) * dc + (snd p - IZR center) * ds)%R.

(** ** The icon in closed form *)

Definition on_canvas (x y : Z) : bool :=
  (0 <=? x) && (x <? size) && (0 <=? y) && (y <? size).

(** The clock by layers, topmost first: the hub, the minute hand, the
    hour hand, the markers, the face, the gradient. *)
Definition clock_pixels {Font : Type} (fl : FloatEnv) (env : Env Font) : Pixels :=
  fun x y =>
    if negb (on_canvas x y) then (0, 0, 0)
    else if ellipse_mask (raster_ellipse env) hub_bbox x y then marker_color
    else if raster_line env
              [(Int center, Int center); (Flt (minute_x fl), Flt (minute_y fl))] 24 x y
         then (77, 77, 77)
    else if raster_line env
              [(Int center, Int center); (Flt (hour_x fl), Flt (hour_y fl))] 30 x y
         then (51, 51, 51)
    else if existsb
              (fun i => raster_line env
                          [(Flt (x1 fl i), Flt (y1 fl i)); (Flt (x2 fl i), Flt (y2 fl i))]
                          20 x y)
              (range 12)
         then marker_color
    else if ellipse_mask (raster_ellipse env) face_bbox x y then (255, 255, 255)
    else gradient_color y.

(** The text over given pixels: the shadow, then the white text, as far as
    the font, the measure and the two draws go through. *)
Definition text_layer {Font : Type} (env : Env Font) (px : Pixels) : Pixels :=
  match selected_font env with
  | Raise _ => px
  | Ok f =>
      match textbbox env (0, 0) text_AT f with
      | Raise _ => px
      | Ok bbox =>
          match text env px (shadow_xy bbox) text_AT shadow_fill f with
          | Raise _ => px
          | Ok px1 =>
              match text env px1 (main_xy bbox) text_AT white_fill f with
              | Raise _ => px1
              | Ok px2 => px2
              end
          end
      end
  end.

Definition icon {Font : Type} (fl : FloatEnv) (env : Env Font) : Image :=
  mkImage ModeRGB size size (text_layer env (clock_pixels fl env)).

(** * Theorems *)

(** ** Ranges *)

Lemma range_In (n y : Z) : In y (range n) <-> 0 <= y < n.
Proof.
  unfold range. rewrite in_map_iff. split.
  - intros [k [<- Hk]]. apply in_seq in Hk. lia.
  - intros Hy. exists (Z.to_nat y). split; [lia|]. apply in_seq. lia.
Qed.

Lemma range_forallb (n : Z) (P : Z -> bool) :
  forallb P (range n) = true -> forall y, 0 <= y < n -> P y = true.
Proof.
  intros H y Hy. rewrite forallb_forall in H. apply H, range_In, Hy.
Qed.

Lemma range_length (n : Z) : List.length (range n) = Z.to_nat n.
Proof. unfold range. now rewrite length_map, length_seq. Qed.

Lemma range_nth (n i : Z) : 0 <= i < n -> nth (Z.to_nat i) (range n) 0 = i.
Proof.
  intros Hi. unfold range.
  rewrite (nth_indep _ 0 (Z.of_nat 0)) by (rewrite length_map, length_seq; lia).
  rewrite map_nth, seq_nth by lia. lia.
Qed.

(** ** The gradient channels *)

Lemma channels_agree_all : forallb channels_agree (range size) = true.
Proof. vm_compute. reflexivity. Qed.

Lemma channels_spec (y : Z) :
  0 <= y < size ->
  r y = Some (spec_r y) /\ g y = Some (spec_g y) /\ b y = Some (spec_b y).
Proof.
  intros Hy. pose proof (range_forallb _ _ channels_agree_all y Hy) as H.
  unfold channels_agree in H.
  destruct (r y) as [rv|]; [|discriminate].
  destruct (g y) as [gv|]; [|discriminate].
  destruct (b y) as [bv|]; [|discriminate].
  apply andb_prop in H. destruct H as [H Hb].
  apply andb_prop in H. destruct H as [Hr Hg].
  apply Z.eqb_eq in Hr, Hg, Hb. now subst.
Qed.

Lemma channels_in_range_all : forallb channels_in_range (range size) = true.
Proof. vm_compute. reflexivity. Qed.

(** The literal [0.2] is the double nearest to two tenths: with
    [m = 7205759403792794], [|m / 2^55 - 1/5| <= 2^-56]. *)
Lemma lit_0_2_nearest :
  PyFloat.lit_0_2 = PyFloat.truediv 2 10 /\
  2 * Z.abs (5 * 7205759403792794 - 2 ^ 55) <= 5.
Proof. split; [vm_compute; reflexivity | vm_compute; discriminate]. Qed.

Lemma lit_1_0_exact : PyFloat.lit_1_0 = PyFloat.of_int 1.
Proof. vm_compute. reflexivity. Qed.

(** ** Running draw calls *)

Section Running.

Context {Font : Type}.
Implicit Types (s : State Font) (sh : Shape Font) (shs : list (Shape Font)).

Lemma draw_shape_ok (c : Call Font) mask fill ink s :
  getink fill = Some ink ->
  draw_shape c mask fill s = (Ok tt, apply_shape (mkShape c mask ink) s).
Proof. intros H. unfold draw_shape, apply_shape. now rewrite H. Qed.

Lemma run_shapes_app shs1 shs2 s :
  run_shapes (shs1 ++ shs2) s = run_shapes shs2 (run_shapes shs1 s).
Proof. apply fold_left_app. Qed.

Lemma paint_all_app shs1 shs2 im :
  paint_all (shs1 ++ shs2) im = paint_all shs2 (paint_all shs1 im).
Proof. apply fold_left_app. Qed.

Lemma run_shapes_state shs s :
  run_shapes shs s =
  mkState (paint_all shs (image s)) (stdout s) (calls s ++ map sh_call shs) (files s).
Proof.
  revert s. induction shs as [|sh shs IH]; intros s.
  - destruct s. cbn. now rewrite app_nil_r.
  - cbn [run_shapes fold_left]. fold (run_shapes shs (apply_shape sh s)).
    rewrite IH. unfold apply_shape, set_image, log. cbn.
    now rewrite <- app_assoc.
Qed.

Lemma for_each_shapes {A : Type} (l : list A) (body : A -> M Font unit)
    (shape : A -> Shape Font) :
  (forall a, In a l -> forall s, body a s = (Ok tt, apply_shape (shape a) s)) ->
  forall s, for_each l body s = (Ok tt, run_shapes (map shape l) s).
Proof.
  induction l as [|a l IH]; intros H s.
  - reflexivity.
  - cbn [for_each]. unfold bind. rewrite (H a (or_introl eq_refl)).
    rewrite IH by (intros a' Ha'; apply H; now right). reflexivity.
Qed.

Lemma same_frame_refl im : same_frame im im.
Proof. now repeat split. Qed.

Lemma same_frame_trans im1 im2 im3 :
  same_frame im1 im2 -> same_frame im2 im3 -> same_frame im1 im3.
Proof. unfold same_frame. intuition congruence. Qed.

(** Painting changes neither the mode nor the dimensions. *)
Lemma paint_frame mask ink im : same_frame (paint mask ink im) im.
Proof. now repeat split. Qed.

Lemma paint_all_frame shs im : same_frame (paint_all shs im) im.
Proof.
  revert im. induction shs as [|sh shs IH]; intros im.
  - apply same_frame_refl.
  - cbn [paint_all fold_left]. eapply same_frame_trans; [apply IH | apply paint_frame].
Qed.

End Running.

(** ** The clock steps as shapes *)

Section ClockRun.

Context {Font : Type}.
Variable fl : FloatEnv.
Variable env : Env Font.
Implicit Types (s : State Font).

Lemma gradient_row_run y s :
  0 <= y < size ->
  gradient_row env y s = (Ok tt, apply_shape (gradient_shape env y) s).
Proof.
  intros Hy. destruct (channels_spec y Hy) as (Hr & Hg & Hb).
  unfold gradient_row, bind. rewrite Hr, Hg, Hb. cbn [int_of ret].
  unfold draw_line. now rewrite (draw_shape_ok _ _ _ (gradient_color y)).
Qed.

Lemma gradient_step_run s :
  gradient_step env s = (Ok tt, run_shapes (map (gradient_shape env) (range size)) s).
Proof.
  unfold gradient_step. apply for_each_shapes.
  intros y Hy s'. apply gradient_row_run. now apply range_In.
Qed.

Lemma clock_face_step_run s :
  clock_face_step env s = (Ok tt, apply_shape (face_shape env) s).
Proof. reflexivity. Qed.

Lemma markers_step_run s :
  markers_step fl env s = (Ok tt, run_shapes (map (marker_shape fl env) (range 12)) s).
Proof. unfold markers_step. apply for_each_shapes. reflexivity. Qed.

Lemma hour_hand_run s : hour_hand fl env s = (Ok tt, apply_shape (hour_shape fl env) s).
Proof. reflexivity. Qed.

Lemma minute_hand_run s : minute_hand fl env s = (Ok tt, apply_shape (minute_shape fl env) s).
Proof. reflexivity. Qed.

Lemma hub_step_run s : hub_step env s = (Ok tt, apply_shape (hub_shape env) s).
Proof. reflexivity. Qed.

Lemma clock_steps_run s :
  clock_steps fl env s = (Ok tt, run_shapes (clock_shapes fl env) s).
Proof.
  unfold clock_steps, bind.
  rewrite gradient_step_run, clock_face_step_run, markers_step_run,
    hour_hand_run, minute_hand_run, hub_step_run.
  unfold clock_shapes, hands_shapes. rewrite !run_shapes_app. reflexivity.
Qed.

(** The row of a gradient line: the pixels [0 .. size] of row [y]. *)
Lemma gradient_mask y x y' :
  sh_mask (gradient_shape env y) x y' = (y' =? y) && (0 <=? x) && (x <=? size).
Proof.
  unfold gradient_shape, line_shape, line_mask. cbn [sh_mask].
  rewrite Z.eqb_refl. reflexivity.
Qed.

Lemma gradient_pixels (rows : list Z) (im : Image) x y :
  in_image im x y = true -> 0 <= x <= size ->
  im_data (paint_all (map (gradient_shape env) rows) im) x y =
  if existsb (Z.eqb y) rows then gradient_color y else im_data im x y.
Proof.
  intros Hin Hx. revert im Hin.
  induction rows as [|y0 rows IH]; intros im Hin.
  - reflexivity.
  - cbn [map paint_all fold_left existsb].
    fold (paint_all (map (gradient_shape env) rows)
            (paint (sh_mask (gradient_shape env y0)) (sh_ink (gradient_shape env y0)) im)).
    rewrite IH by exact Hin.
    destruct (existsb (Z.eqb y) rows); [now rewrite orb_true_r|].
    rewrite orb_false_r. cbn [paint im_data]. rewrite Hin, gradient_mask.
    replace (0 <=? x) with true by (symmetry; apply Z.leb_le; lia).
    replace (x <=? size) with true by (symmetry; apply Z.leb_le; lia).
    rewrite !andb_true_r, andb_true_l.
    destruct (Z.eqb_spec y y0) as [->|_]; reflexivity.
Qed.

End ClockRun.

Lemma existsb_range (n y : Z) : 0 <= y < n -> existsb (Z.eqb y) (range n) = true.
Proof.
  intros Hy. apply existsb_exists. exists y. split; [now apply range_In | apply Z.eqb_refl].
Qed.

(** ** The gradient *)

Lemma in_image_new (mode : Mode) (w h x y : Z) :
  0 <= x < w -> 0 <= y < h -> in_image (Image_new mode w h) x y = true.
Proof.
  intros Hx Hy. unfold in_image, Image_new. cbn [im_width im_height].
  apply andb_true_intro. split; [|apply Z.ltb_lt; lia].
  apply andb_true_intro. split; [|apply Z.leb_le; lia].
  apply andb_true_intro. split; [apply Z.leb_le; lia | apply Z.ltb_lt; lia].
Qed.

Lemma in_image_start (Font : Type) (x y : Z) :
  0 <= x < size -> 0 <= y < size -> in_image (image (@start Font)) x y = true.
Proof. apply in_image_new. Qed.

(** C1: for every row [y] in [0, 1024) the three channels the code computes
    in floating point are the integers the formula of the specification
    gives in exact arithmetic, truncated, and after the gradient step every
    pixel of row [y] has that colour: a function of [y] alone, the same
    whatever the other rows are and whatever the environment is; the step
    raises nothing. *)
Theorem gradient_row_colour (Font : Type) (env : Env Font) (x y : Z) :
  0 <= y < 1024 -> 0 <= x < 1024 ->
  (r y, g y, b y) = (Some (spec_r y), Some (spec_g y), Some (spec_b y)) /\
  outcome (gradient_step env) start = Ok tt /\
  im_data (image (exec (gradient_step env) start)) x y =
    (spec_r y, spec_g y, spec_b y).
Proof.
  intros Hy Hx. split.
  { destruct (channels_spec y Hy) as (-> & -> & ->). reflexivity. }
  unfold outcome, exec. rewrite gradient_step_run. cbn [fst snd].
  split; [reflexivity|].
  rewrite run_shapes_state. cbn [image].
  rewrite gradient_pixels.
  - now rewrite existsb_range.
  - apply in_image_start; unfold size; lia.
  - unfold size. lia.
Qed.

Lemma gradient_row_colour_witness :
  0 <= 700 < 1024 /\ 0 <= 3 < 1024 /\
  im_data (image (exec (gradient_step mac_env) start)) 3 700 = (220, 144, 110).
Proof.
  split; [lia|]. split; [lia|].
  refine (proj2 (proj2 (gradient_row_colour string mac_env 3 700 _ _))); lia.
Defined.

(** C10: for every row [y] in [0, 1024) the three channel values the code
    computes are integers with [204 <= r <= 255], [76 <= g <= 176] and
    [76 <= b <= 126]: none is negative, none exceeds 255. *)
Theorem gradient_channels_bounded (y : Z) :
  0 <= y < 1024 ->
  exists rv gv bv,
    r y = Some rv /\ g y = Some gv /\ b y = Some bv /\
    204 <= rv <= 255 /\ 76 <= gv <= 176 /\ 76 <= bv <= 126.
Proof.
  intros Hy. destruct (channels_spec y Hy) as (Hr & Hg & Hb).
  exists (spec_r y), (spec_g y), (spec_b y).
  pose proof (range_forallb _ _ channels_in_range_all y Hy) as H.
  unfold channels_in_range in H.
  repeat (apply andb_prop in H; destruct H as [H ?]).
  repeat match goal with
         | H : (_ <=? _) = true |- _ => apply Z.leb_le in H
         end.
  repeat split; assumption.
Qed.

Lemma gradient_channels_bounded_witness :
  0 <= 1023 < 1024 /\
  exists rv gv bv,
    r 1023 = Some rv /\ g 1023 = Some gv /\ b 1023 = Some bv /\
    204 <= rv <= 255 /\ 76 <= gv <= 176 /\ 76 <= bv <= 126.
Proof.
  split; [lia|]. apply (gradient_channels_bounded 1023). lia.
Defined.

(** ** Real-number facts for the end points *)

Section RealFacts.

Local Open Scope R_scope.

Lemma Rabs_le_between (a c : R) : Rabs a <= c -> - c <= a <= c.
Proof. unfold Rabs. destruct (Rcase_abs a); lra. Qed.

Lemma Rabs_sin_le (x : R) : Rabs (sin x) <= Rabs x.
Proof.
  assert (Hpos : forall t, 0 < t -> Rabs (sin t) <= t).
  { intros t Ht. apply Rabs_le. split.
    - destruct (Rle_or_lt t 1) as [H1|H1].
      + assert (0 <= sin t).
        { apply sin_ge_0; [lra|]. pose proof PI2_3_2. lra. }
        lra.
      + pose proof (SIN_bound t). lra.
    - left. now apply sin_lt_x. }
  destruct (Rtotal_order x 0) as [Hx|[Hx|Hx]].
  - rewrite <- (Rabs_Ropp (sin x)), <- sin_neg, <- (Rabs_Ropp x).
    rewrite (Rabs_right (- x)) by lra. apply Hpos. lra.
  - subst x. rewrite sin_0, Rabs_R0. lra.
  - rewrite (Rabs_right x) by lra. now apply Hpos.
Qed.

Lemma Rabs_sin_le_1 (x : R) : Rabs (sin x) <= 1.
Proof. apply Rabs_le. apply SIN_bound. Qed.

Lemma cos_lipschitz (a b : R) : Rabs (cos a - cos b) <= Rabs (a - b).
Proof.
  rewrite form2, !Rabs_mult.
  pose proof (Rabs_sin_le ((a - b) / 2)) as H1.
  pose proof (Rabs_sin_le_1 ((a + b) / 2)) as H2.
  pose proof (Rabs_pos (sin ((a - b) / 2))) as P1.
  pose proof (Rabs_pos (sin ((a + b) / 2))) as P2.
  replace (Rabs (-2)) with 2 by (rewrite Rabs_left; lra).
  assert (E : Rabs ((a - b) / 2) = Rabs (a - b) / 2).
  { unfold Rdiv. rewrite Rabs_mult, (Rabs_right (/ 2)); lra. }
  rewrite E in H1. nra.
Qed.

Lemma sin_lipschitz (a b : R) : Rabs (sin a - sin b) <= Rabs (a - b).
Proof.
  rewrite form4, !Rabs_mult.
  pose proof (Rabs_sin_le ((a - b) / 2)) as H1.
  assert (H2 : Rabs (cos ((a + b) / 2)) <= 1) by (apply Rabs_le; apply COS_bound).
  pose proof (Rabs_pos (sin ((a - b) / 2))) as P1.
  pose proof (Rabs_pos (cos ((a + b) / 2))) as P2.
  replace (Rabs 2) with 2 by (rewrite Rabs_right; lra).
  assert (E : Rabs ((a - b) / 2) = Rabs (a - b) / 2).
  { unfold Rdiv. rewrite Rabs_mult, (Rabs_right (/ 2)); lra. }
  rewrite E in H1. nra.
Qed.

Lemma sum_sqr_nonneg (a c : R) : 0 <= a * a + c * c.
Proof. nra. Qed.

(** The disc is convex, and thickening a point of it by [h] stays within
    the disc of radius [rho + h]. *)
Lemma disc_convex (a1 a2 b1 b2 rho t : R) :
  a1 * a1 + a2 * a2 <= rho * rho -> b1 * b1 + b2 * b2 <= rho * rho ->
  0 <= t <= 1 ->
  (a1 + t * (b1 - a1)) * (a1 + t * (b1 - a1)) +
  (a2 + t * (b2 - a2)) * (a2 + t * (b2 - a2)) <= rho * rho.
Proof.
  intros Ha Hb Ht.
  assert (H1 : 0 <= t * (1 - t)) by nra.
  assert (H2 : 0 <= t * (1 - t) * ((a1 - b1) * (a1 - b1) + (a2 - b2) * (a2 - b2))).
  { apply Rmult_le_pos; [exact H1 | apply sum_sqr_nonneg]. }
  assert (E : (a1 + t * (b1 - a1)) * (a1 + t * (b1 - a1)) +
              (a2 + t * (b2 - a2)) * (a2 + t * (b2 - a2)) =
              (1 - t) * (a1 * a1 + a2 * a2) + t * (b1 * b1 + b2 * b2)
              - t * (1 - t) * ((a1 - b1) * (a1 - b1) + (a2 - b2) * (a2 - b2))) by ring.
  rewrite E. nra.
Qed.

Lemma disc_thicken (a1 a2 d1 d2 rho h : R) :
  0 <= rho -> 0 <= h ->
  a1 * a1 + a2 * a2 <= rho * rho -> d1 * d1 + d2 * d2 <= h * h ->
  (a1 + d1) * (a1 + d1) + (a2 + d2) * (a2 + d2) <= (rho + h) * (rho + h).
Proof.
  intros Hrho Hh Ha Hd.
  assert (Hcs : (a1 * d1 + a2 * d2) * (a1 * d1 + a2 * d2) <= (rho * h) * (rho * h)).
  { assert (E : (a1 * d1 + a2 * d2) * (a1 * d1 + a2 * d2) =
                (a1 * a1 + a2 * a2) * (d1 * d1 + d2 * d2)
                - (a1 * d2 - a2 * d1) * (a1 * d2 - a2 * d1)) by ring.
    rewrite E.
    assert (0 <= (a1 * d2 - a2 * d1) * (a1 * d2 - a2 * d1)).
    { pose proof (sum_sqr_nonneg (a1 * d2 - a2 * d1) 0). lra. }
    assert ((a1 * a1 + a2 * a2) * (d1 * d1 + d2 * d2) <= (rho * rho) * (h * h)).
    { apply Rmult_le_compat; nra. }
    nra. }
  assert (Hdot : a1 * d1 + a2 * d2 <= rho * h).
  { assert (0 <= rho * h) by nra.
    destruct (Rle_or_lt (a1 * d1 + a2 * d2) (rho * h)) as [H'|H']; [exact H'|].
    exfalso. nra. }
  nra.
Qed.

End RealFacts.

(** ** Geometry of the end points *)

Lemma exact_fl_accurate : accurate 0 exact_fl.
Proof.
  unfold accurate, exact_fl; cbn.
  repeat split; intros;
    match goal with
    | |- (Rabs ?e <= _)%R => replace e with 0%R by ring
    end; rewrite Rabs_R0; lra.
Qed.

Lemma small_0 : small 0.
Proof. unfold small. lra. Qed.

Section Close.

Local Open Scope R_scope.

Variable fl : FloatEnv.
Variable u : R.
Hypothesis Hu : small u.
Hypothesis Hfl : accurate u fl.

Lemma radians_close (d : R) :
  Rabs d <= 360 ->
  Rabs (math_radians fl d - d * PI / 180) <= 36 * u.
Proof using Hu Hfl.
  intros Hd. destruct Hfl as (_ & _ & Hrad & _).
  eapply Rle_trans; [apply (Hrad d Hd)|].
  assert (Rabs (d * PI / 180) <= 8).
  { apply Rabs_le. apply Rabs_le_between in Hd.
    pose proof PI_4. pose proof PI_RGT_0. split; nra. }
  destruct Hu. nra.
Qed.

(** One coordinate: [512 + len * f(angle)] through a rounded product and a
    rounded sum, for [f] one of [cos], [sin] and [F] its libm version. *)
Lemma coordinate_close (f F : R -> R) (len d : R) :
  (forall a c, Rabs (f a - f c) <= Rabs (a - c)) ->
  (forall a, Rabs (f a) <= 1) ->
  (forall a, Rabs a <= 10 -> Rabs (F a - f a) <= u) ->
  0 <= len <= 400 -> Rabs d <= 360 ->
  Rabs (fl_add fl 512 (fl_mul fl len (F (math_radians fl d)))
        - (512 + len * f (d * PI / 180))) <= 20000 * u.
Proof using Hu Hfl.
  intros Hlip Hbound HF Hlen Hd.
  pose proof (radians_close d Hd) as Hrad.
  destruct Hfl as (Hadd & Hmul & _).
  destruct Hu as [Hu0 Hu1].
  assert (Ht : Rabs (d * PI / 180) <= 8).
  { apply Rabs_le. apply Rabs_le_between in Hd.
    pose proof PI_4. pose proof PI_RGT_0. split; nra. }
  set (t' := math_radians fl d) in *.
  set (t := d * PI / 180) in *.
  assert (Ht' : Rabs t' <= 10).
  { apply Rabs_le_between in Hrad, Ht. apply Rabs_le. split; lra. }
  assert (Hc : Rabs (F t' - f t) <= 37 * u).
  { replace (F t' - f t) with ((F t' - f t') + (f t' - f t)) by ring.
    eapply Rle_trans; [apply Rabs_triang|].
    specialize (HF t' Ht'). specialize (Hlip t' t). lra. }
  pose proof (Hbound t) as Hft.
  apply Rabs_le_between in Hc, Hft.
  set (c' := F t') in *. set (c := f t) in *.
  assert (Hlc : Rabs (len * c') <= 401).
  { apply Rabs_le. split; nra. }
  assert (Hm : Rabs (fl_mul fl len c' - len * c') <= u * (Rabs (len * c') + 1)).
  { apply Hmul; apply Rabs_le; lra. }
  set (m := fl_mul fl len c') in *.
  assert (Hm' : Rabs (m - len * c') <= 402 * u).
  { eapply Rle_trans; [apply Hm|]. nra. }
  apply Rabs_le_between in Hm', Hlc.
  assert (Hx : Rabs (fl_add fl 512 m - (512 + m)) <= u * (Rabs (512 + m) + 1)).
  { apply Hadd; apply Rabs_le; lra. }
  set (x := fl_add fl 512 m) in *.
  assert (Hs : Rabs (512 + m) <= 914).
  { apply Rabs_le. split; nra. }
  assert (Hx' : Rabs (x - (512 + m)) <= 915 * u).
  { eapply Rle_trans; [apply Hx|]. nra. }
  apply Rabs_le_between in Hx'.
  apply Rabs_le. split; nra.
Qed.

Lemma IZR_bounds (z lo hi : Z) : (lo <= z <= hi)%Z -> IZR lo <= IZR z <= IZR hi.
Proof. intros [H1 H2]. split; now apply IZR_le. Qed.

Lemma IZR_center : IZR center = 512.
Proof. reflexivity. Qed.

(** The computed point is within [20000 u] of the ideal one. *)
Lemma polar_near (len d : Z) :
  (0 <= len <= 400)%Z -> (-360 <= d <= 360)%Z ->
  near (20000 * u) (polar fl len (math_radians fl (IZR d))) (ideal_point len d).
Proof using Hu Hfl.
  intros Hlen Hd. destruct Hfl as (_ & _ & _ & Hcos & Hsin).
  apply IZR_bounds in Hlen, Hd.
  assert (Hd' : Rabs (IZR d) <= 360) by (apply Rabs_le; lra).
  unfold near, polar, ideal_point, degrees. cbn [fst snd]. rewrite IZR_center. split.
  - apply coordinate_close; auto using cos_lipschitz.
    intros a. apply Rabs_le, COS_bound.
  - apply coordinate_close; auto using sin_lipschitz, Rabs_sin_le_1.
Qed.

Lemma ideal_in_disc (len d : Z) :
  dist2 (ideal_point len d) centre = IZR len * IZR len.
Proof.
  unfold dist2, ideal_point, centre. cbn [fst snd].
  pose proof (sin2_cos2 (degrees d)) as H. unfold Rsqr in H.
  replace ((IZR center + IZR len * cos (degrees d) - IZR center) *
           (IZR center + IZR len * cos (degrees d) - IZR center) +
           (IZR center + IZR len * sin (degrees d) - IZR center) *
           (IZR center + IZR len * sin (degrees d) - IZR center))
    with (IZR len * IZR len * (sin (degrees d) * sin (degrees d) +
                                 cos (degrees d) * cos (degrees d))) by ring.
  rewrite H. ring.
Qed.

Lemma near_in_disc (rho : R) (p q : R * R) :
  0 <= rho -> dist2 q centre <= rho * rho -> near (/ 2) p q -> in_disc (rho + 1) p.
Proof.
  intros Hrho Hq [H1 H2]. unfold in_disc, dist2 in *. cbn [fst snd centre] in *.
  apply Rabs_le_between in H1, H2.
  replace (fst p - IZR center) with ((fst q - IZR center) + (fst p - fst q)) by ring.
  replace (snd p - IZR center) with ((snd q - IZR center) + (snd p - snd q)) by ring.
  apply disc_thicken; try lra. nra.
Qed.

Lemma polar_in_disc (len d : Z) :
  (0 <= len <= 400)%Z -> (-360 <= d <= 360)%Z ->
  in_disc (IZR len + 1) (polar fl len (math_radians fl (IZR d))).
Proof using Hu Hfl.
  intros Hlen Hd. apply near_in_disc with (q := ideal_point len d).
  - apply IZR_bounds in Hlen. lra.
  - rewrite ideal_in_disc. lra.
  - destruct (polar_near len d Hlen Hd) as [H1 H2]. destruct Hu.
    split; eapply Rle_trans; try eassumption; lra.
Qed.

End Close.

Lemma in_disc_weaken (rho rho' : R) (z : R * R) :
  (0 <= rho <= rho')%R -> in_disc rho z -> in_disc rho' z.
Proof. unfold in_disc. intros H Hz. nra. Qed.

Lemma centre_in_disc (rho : R) : (0 <= rho)%R -> in_disc rho centre.
Proof.
  intros H. unfold in_disc, dist2. cbn [fst snd centre].
  replace ((IZR center - IZR center) * (IZR center - IZR center) +
           (IZR center - IZR center) * (IZR center - IZR center))%R with 0%R by ring.
  nra.
Qed.

(** A stroke between two points of a disc stays within the disc widened by
    half the width. *)
Lemma stroke_in_disc (rho : R) (p q : R * R) (width : Z) (z : R * R) :
  (0 <= rho)%R -> (0 <= width)%Z ->
  in_disc rho p -> in_disc rho q -> on_stroke p q width z ->
  in_disc (rho + IZR width / 2) z.
Proof.
  intros Hrho Hw Hp Hq (t & Ht & Hz).
  apply IZR_le in Hw.
  unfold in_disc, dist2 in *. cbn [fst snd centre] in *.
  set (sx := (fst p + t * (fst q - fst p))%R) in *.
  set (sy := (snd p + t * (snd q - snd p))%R) in *.
  replace (fst z - IZR center)%R with ((sx - IZR center) + (fst z - sx))%R by ring.
  replace (snd z - IZR center)%R with ((sy - IZR center) + (snd z - sy))%R by ring.
  apply disc_thicken; try lra; try exact Hz.
  subst sx sy.
  replace (fst p + t * (fst q - fst p) - IZR center)%R
    with ((fst p - IZR center) + t * ((fst q - IZR center) - (fst p - IZR center)))%R by ring.
  replace (snd p + t * (snd q - snd p) - IZR center)%R
    with ((snd p - IZR center) + t * ((snd q - IZR center) - (snd p - IZR center)))%R by ring.
  now apply disc_convex.
Qed.

(** A point of a disc around the centre is that close in each coordinate. *)
Lemma in_disc_box (rho : R) (z : R * R) :
  (0 <= rho)%R -> in_disc rho z ->
  (IZR center - rho <= fst z <= IZR center + rho)%R /\
  (IZR center - rho <= snd z <= IZR center + rho)%R.
Proof.
  unfold in_disc, dist2. cbn [fst snd centre]. intros Hrho H.
  set (a := (fst z - IZR center)%R) in *. set (c := (snd z - IZR center)%R) in *.
  assert (Ha : (- rho <= a <= rho)%R) by (split; nra).
  assert (Hc : (- rho <= c <= rho)%R) by (split; nra).
  subst a c. lra.
Qed.

(** ** The hour hand *)

Section HourHand.

Local Open Scope R_scope.

Lemma sqrt3_bounds : 17320 / 10000 < sqrt 3 < 17321 / 10000.
Proof.
  assert (H0 : 0 <= sqrt 3) by apply sqrt_pos.
  assert (H3 : sqrt 3 * sqrt 3 = 3) by (apply sqrt_sqrt; lra).
  split.
  - destruct (Rlt_or_le (17320 / 10000) (sqrt 3)) as [H|H]; [exact H|]. exfalso. nra.
  - destruct (Rlt_or_le (sqrt 3) (17321 / 10000)) as [H|H]; [exact H|]. exfalso. nra.
Qed.

Lemma degrees_210 : degrees 210 = PI / 6 + PI.
Proof. unfold degrees. field. Qed.

Lemma cos_210 : cos (degrees 210) = - (sqrt 3 / 2).
Proof. now rewrite degrees_210, neg_cos, cos_PI6. Qed.

Lemma sin_210 : sin (degrees 210) = - (1 / 2).
Proof. now rewrite degrees_210, neg_sin, sin_PI6. Qed.

Lemma ideal_hour_point : ideal_point 180 210 = (512 - 90 * sqrt 3, 422).
Proof.
  unfold ideal_point. rewrite cos_210, sin_210, IZR_center. f_equal; field.
Qed.

End HourHand.

(** C2, as amended: with arithmetic and libm accurate to [u <= 10^-12], the
    computed end point of the hour hand is within [10^-6] of
    [(512 + 180 cos 210deg, 512 + 180 sin 210deg)], which is
    [(512 - 90 sqrt 3, 422)], about [(356.1, 422.0)]: up and to the left of
    the centre, towards ten o'clock. *)
Theorem hour_hand_endpoint (fl : FloatEnv) (u : R) :
  small u -> accurate u fl ->
  near (/ 1000000) (hour_x fl, hour_y fl) (ideal_point 180 210) /\
  ideal_point 180 210 = ((512 - 90 * sqrt 3)%R, 422%R) /\
  (Rabs (hour_x fl - 3561 / 10) <= 5 / 100)%R /\
  (Rabs (hour_y fl - 422) <= 5 / 100)%R.
Proof.
  intros Hu Hfl.
  assert (Hn : near (/ 1000000) (hour_x fl, hour_y fl) (ideal_point 180 210)).
  { destruct (polar_near fl u Hu Hfl 180 210 ltac:(lia) ltac:(lia)) as [H1 H2].
    destruct Hu as [Hu0 Hu1].
    split; cbn [fst snd]; (eapply Rle_trans; [eassumption | lra]). }
  split; [exact Hn|]. split; [apply ideal_hour_point|].
  destruct Hn as [H1 H2]. rewrite ideal_hour_point in H1, H2. cbn [fst snd] in H1, H2.
  apply Rabs_le_between in H1, H2. pose proof sqrt3_bounds.
  split; apply Rabs_le; lra.
Qed.

Lemma hour_hand_endpoint_witness :
  small 0 /\ accurate 0 exact_fl /\
  (Rabs (hour_x exact_fl - 3561 / 10) <= 5 / 100)%R /\
  (Rabs (hour_y exact_fl - 422) <= 5 / 100)%R.
Proof.
  split; [exact small_0|]. split; [exact exact_fl_accurate|].
  exact (proj2 (proj2 (hour_hand_endpoint exact_fl 0 small_0 exact_fl_accurate))).
Defined.

(** C2 as the specification words it does not hold: the end point is more
    than one unit away from 357.9 in [x] and from 602.0 in [y], already in
    exact arithmetic. *)
Lemma hour_hand_endpoint_not_358_602 :
  ~ (Rabs (hour_x exact_fl - 3579 / 10) <= 1)%R /\
  ~ (Rabs (hour_y exact_fl - 602) <= 1)%R.
Proof.
  assert (Hx : hour_x exact_fl = (512 - 90 * sqrt 3)%R).
  { change (hour_x exact_fl) with (fst (ideal_point 180 210)).
    now rewrite ideal_hour_point. }
  assert (Hy : hour_y exact_fl = 422%R).
  { change (hour_y exact_fl) with (snd (ideal_point 180 210)).
    now rewrite ideal_hour_point. }
  rewrite Hx, Hy. pose proof sqrt3_bounds as Hs.
  split; intros H; apply Rabs_le_between in H; lra.
Qed.

(** ** The hour markers *)

Lemma markers_calls (Font : Type) (fl : FloatEnv) (env : Env Font) (s : State Font) :
  calls (exec (markers_step fl env) s) = calls s ++ map (marker_call fl) (range 12).
Proof.
  unfold exec. rewrite markers_step_run. cbn [snd].
  rewrite run_shapes_state. cbn [calls]. now rewrite map_map.
Qed.

Lemma marker_ends_in_disc (fl : FloatEnv) (u : R) (i : Z) :
  small u -> accurate u fl -> 0 <= i < 12 ->
  in_disc 351 (x1 fl i, y1 fl i) /\ in_disc 351 (x2 fl i, y2 fl i).
Proof.
  intros Hu Hfl Hi.
  assert (Hd : -360 <= marker_degrees i <= 360) by (unfold marker_degrees; lia).
  split.
  - apply (polar_in_disc fl u Hu Hfl outer_radius) in Hd; [|cbv; split; discriminate].
    unfold x1, y1, marker_angle. rewrite <- surjective_pairing.
    eapply in_disc_weaken; [|exact Hd]. change (IZR outer_radius) with 350%R. lra.
  - apply (polar_in_disc fl u Hu Hfl inner_radius) in Hd; [|cbv; split; discriminate].
    unfold x2, y2, marker_angle. rewrite <- surjective_pairing.
    eapply in_disc_weaken; [|exact Hd]. change (IZR inner_radius) with 300%R. lra.
Qed.



(** ** The centre hub *)

Lemma in_image_frame (im1 im2 : Image) (x y : Z) :
  same_frame im1 im2 -> in_image im1 x y = in_image im2 x y.
Proof. intros (_ & Hw & Hh). unfold in_image. now rewrite Hw, Hh. Qed.

Lemma sq_le_bound (a c n : Z) : 0 <= n -> a ^ 2 + c ^ 2 <= n ^ 2 -> - n <= a <= n.
Proof.
  intros Hn H. rewrite !Z.pow_2_r in H.
  assert (0 <= c * c) by apply Z.square_nonneg.
  split.
  - destruct (Z_le_gt_dec (- n) a) as [|Hlt]; [assumption|]. exfalso.
    assert ((n + 1) * (n + 1) <= a * a) by nia. nia.
  - destruct (Z_le_gt_dec a n) as [|Hgt]; [assumption|]. exfalso.
    assert ((n + 1) * (n + 1) <= a * a) by nia. nia.
Qed.

Lemma hub_mask_disc (raster : Z * Z * Z * Z -> Z -> Z -> bool) (x y : Z) :
  (x - 512) ^ 2 + (y - 512) ^ 2 <= 40 ^ 2 -> ellipse_mask raster hub_bbox x y = true.
Proof.
  intros H.
  assert (Hx : -40 <= x - 512 <= 40) by (apply (sq_le_bound (x - 512) (y - 512) 40); [lia | exact H]).
  assert (Hy : -40 <= y - 512 <= 40).
  { apply (sq_le_bound (y - 512) (x - 512) 40); [lia | now rewrite Z.add_comm]. }
  assert (Hd : (2 * x - (472 + 552)) ^ 2 * (552 - 472) ^ 2 +
               (2 * y - (472 + 552)) ^ 2 * (552 - 472) ^ 2 <=
               (552 - 472) ^ 2 * (552 - 472) ^ 2).
  { replace ((2 * x - (472 + 552)) ^ 2 * (552 - 472) ^ 2 +
             (2 * y - (472 + 552)) ^ 2 * (552 - 472) ^ 2)
      with (25600 * ((x - 512) ^ 2 + (y - 512) ^ 2)) by ring.
    set (t := (x - 512) ^ 2 + (y - 512) ^ 2) in *.
    change ((552 - 472) ^ 2 * (552 - 472) ^ 2) with 40960000.
    change (40 ^ 2) with 1600 in H. lia. }
  unfold ellipse_mask. apply andb_true_intro. split.
  - change (in_box hub_bbox x y) with
      ((472 <=? x) && (x <=? 552) && (472 <=? y) && (y <=? 552)).
    repeat (apply andb_true_intro; split); apply Z.leb_le; lia.
  - apply orb_true_iff. left.
    change (inscribed hub_bbox x y) with
      ((2 * x - (472 + 552)) ^ 2 * (552 - 472) ^ 2 +
       (2 * y - (472 + 552)) ^ 2 * (552 - 472) ^ 2 <=? (552 - 472) ^ 2 * (552 - 472) ^ 2).
    apply Z.leb_le. exact Hd.
Qed.

Lemma clock_shapes_hub_last (Font : Type) (fl : FloatEnv) (env : Env Font) :
  clock_shapes fl env =
  (map (gradient_shape env) (range size) ++ [face_shape env] ++
   map (marker_shape fl env) (range 12) ++ hands_shapes fl env) ++ [hub_shape env].
Proof. unfold clock_shapes. now rewrite <- !app_assoc. Qed.

(** C8: the hub is the last of the clock's draw calls, after both hands, and
    once the clock steps are done every pixel within 40 of (512, 512) has
    the hub colour (255,102,77), whatever the library's line rasteriser
    painted for the hands and markers before. *)
Theorem hub_on_top (Font : Type) (fl : FloatEnv) (env : Env Font) (x y : Z) :
  (x - 512) ^ 2 + (y - 512) ^ 2 <= 40 ^ 2 ->
  (exists before,
      map sh_call (clock_shapes fl env) =
      before ++ [sh_call (hour_shape fl env); sh_call (minute_shape fl env);
                 CallEllipse (472, 472, 552, 552) (FillRGB (255, 102, 77))]) /\
  outcome (clock_steps fl env) start = Ok tt /\
  im_data (image (exec (clock_steps fl env) start)) x y = (255, 102, 77).
Proof.
  intros H. split.
  { exists (map sh_call (map (gradient_shape env) (range size) ++ [face_shape env] ++
                         map (marker_shape fl env) (range 12))).
    unfold clock_shapes, hands_shapes. rewrite !map_app, <- !app_assoc. reflexivity. }
  unfold outcome, exec. rewrite (clock_steps_run fl env start). cbn [fst snd]. split; [reflexivity|].
  rewrite run_shapes_state. cbn [image].
  rewrite clock_shapes_hub_last, paint_all_app.
  set (im0 := paint_all (_ ++ _) _).
  assert (Hin : in_image im0 x y = true).
  { rewrite (in_image_frame im0 (image (@start Font))) by apply paint_all_frame.
    assert (Hx : -40 <= x - 512 <= 40) by (apply (sq_le_bound (x - 512) (y - 512) 40); [lia | exact H]).
    assert (Hy : -40 <= y - 512 <= 40).
    { apply (sq_le_bound (y - 512) (x - 512) 40); [lia | now rewrite Z.add_comm]. }
    apply in_image_start; unfold size; lia. }
  cbn [paint_all fold_left hub_shape sh_mask sh_ink paint im_data].
  now rewrite Hin, hub_mask_disc.
Qed.

Lemma hub_on_top_witness :
  (520 - 512) ^ 2 + (500 - 512) ^ 2 <= 40 ^ 2 /\
  im_data (image (exec (clock_steps exact_fl mac_env) start)) 520 500 = (255, 102, 77).
Proof.
  split; [vm_compute; discriminate|].
  refine (proj2 (proj2 (hub_on_top string exact_fl mac_env 520 500 _))).
  vm_compute; discriminate.
Defined.

(** ** The text overlay and the save, step by step *)

Section TextRun.

Context {Font : Type}.
Variable env : Env Font.
Implicit Types (s : State Font) (f : Font) (e : Exn).

Lemma calls_logs l s : calls (logs l s) = calls s ++ l.
Proof.
  revert s. induction l as [|c l IH]; intros s; cbn [logs fold_left].
  - now rewrite app_nil_r.
  - fold (logs l (log c s)). rewrite IH. cbn [log calls]. now rewrite <- app_assoc.
Qed.

Lemma image_logs l s : image (logs l s) = image s.
Proof.
  revert s. induction l as [|c l IH]; intros s; cbn [logs fold_left]; [reflexivity|].
  fold (logs l (log c s)). now rewrite IH.
Qed.

Lemma stdout_logs l s : stdout (logs l s) = stdout s.
Proof.
  revert s. induction l as [|c l IH]; intros s; cbn [logs fold_left]; [reflexivity|].
  fold (logs l (log c s)). now rewrite IH.
Qed.

Lemma files_logs l s : files (logs l s) = files s.
Proof.
  revert s. induction l as [|c l IH]; intros s; cbn [logs fold_left]; [reflexivity|].
  fold (logs l (log c s)). now rewrite IH.
Qed.

Lemma load_font_run s :
  load_font env s = (selected_font env, logs (font_calls env) s).
Proof.
  unfold load_font, try_except, ImageFont_truetype, ImageFont_load_default,
    selected_font, font_calls, pick_font.
  destruct (truetype env font_path_1 font_size); [reflexivity|].
  destruct (truetype env font_path_2 font_size); reflexivity.
Qed.

Lemma text_body_run s : text_body env s = text_body_result env s.
Proof.
  unfold text_body, text_body_result, bind. rewrite load_font_run.
  destruct (selected_font env) as [f|e]; [|reflexivity].
  unfold draw_textbbox.
  destruct (textbbox env (0, 0) text_AT f) as [bbox|e]; [|reflexivity].
  unfold draw_text, with_pixels, shadow_xy, main_xy, shadow_fill, white_fill.
  cbn [image log set_image im_data im_mode im_width im_height].
  rewrite !image_logs.
  destruct (text env (im_data (image s)) (text_x bbox + shadow_offset, text_y + shadow_offset)
              text_AT (FillRGBA (0, 0, 0, 128)) f) as [px1|e]; [|reflexivity].
  cbn [image log set_image im_data im_mode im_width im_height].
  destruct (text env px1 (text_x bbox, text_y) text_AT (FillName "white") f)
    as [px2|e]; reflexivity.
Qed.

Lemma text_step_run s :
  text_step env s =
  match text_body_result env s with
  | (Ok a, s') => (Ok a, s')
  | (Raise e, s') =>
      if exn_is_Exception e then (Ok tt, printed (diagnostic e) s') else (Raise e, s')
  end.
Proof. unfold text_step, try_except. now rewrite text_body_run. Qed.

Lemma save_step_run s :
  save_step env s =
  match write_file env output_path (png_encode env (image s)) with
  | None =>
      (Ok tt, printed success_line
                (written output_path (png_encode env (image s))
                   (log (CallSave output_path) s)))
  | Some e => (Raise e, log (CallSave output_path) s)
  end.
Proof.
  unfold save_step, bind, image_save.
  destruct (write_file env output_path (png_encode env (image s))); reflexivity.
Qed.

End TextRun.

Lemma main_run (Font : Type) (fl : FloatEnv) (env : Env Font) :
  main fl env start =
  match text_step env (clock_state fl env) with
  | (Ok _, s) => save_step env s
  | (Raise e, s) => (Raise e, s)
  end.
Proof.
  unfold main, bind. rewrite (clock_steps_run fl env start). reflexivity.
Qed.

Lemma clock_state_eq (Font : Type) (fl : FloatEnv) (env : Env Font) :
  clock_state fl env =
  mkState (paint_all (clock_shapes fl env) (Image_new ModeRGB size size)) []
    (map sh_call (clock_shapes fl env)) [].
Proof. unfold clock_state. now rewrite run_shapes_state. Qed.

Lemma clock_state_files (Font : Type) (fl : FloatEnv) (env : Env Font) :
  files (clock_state fl env) = [].
Proof. now rewrite clock_state_eq. Qed.

Lemma clock_state_stdout (Font : Type) (fl : FloatEnv) (env : Env Font) :
  stdout (clock_state fl env) = [].
Proof. now rewrite clock_state_eq. Qed.

Ltac state_simpl :=
  cbn [fst snd image stdout calls files log with_pixels printed written set_image
       im_data im_mode im_width im_height];
  rewrite ?files_logs, ?stdout_logs, ?image_logs.

(** ** The font cascade *)

Lemma text_step_ok (Font : Type) (env : Env Font) (s : State Font)
    (f : Font) (bbox : Z * Z * Z * Z) (px1 px2 : Pixels) :
  selected_font env = Ok f ->
  textbbox env (0, 0) text_AT f = Ok bbox ->
  text env (im_data (image s)) (shadow_xy bbox) text_AT shadow_fill f = Ok px1 ->
  text env px1 (main_xy bbox) text_AT white_fill f = Ok px2 ->
  text_step env s =
  (Ok tt,
   with_pixels px2
     (log (CallText (main_xy bbox) text_AT white_fill f)
        (with_pixels px1
           (logs (font_calls env ++
                  [CallTextbbox (0, 0) text_AT f;
                   CallText (shadow_xy bbox) text_AT shadow_fill f]) s)))).
Proof.
  intros Hf Hb H1 H2. rewrite text_step_run. unfold text_body_result.
  rewrite Hf, Hb, H1, H2. unfold logs. rewrite fold_left_app. reflexivity.
Qed.

(** C5, as amended: the font lookup tries [SFCompact.ttf], then
    [Helvetica.ttc], in that order and no other file; the first load that
    succeeds gives the font and ends the lookup; the built-in default font
    is asked for only when both loads raised.  Font selection is not the
    only thing the run takes from its environment: when the write of the
    output file fails, the run ends in that exception with no file written
    and no success line printed. *)
Theorem font_cascade (Font : Type) (fl : FloatEnv) (env : Env Font) (s : State Font) :
  (forall f,
      truetype env font_path_1 font_size = Ok f ->
      load_font env s = (Ok f, logs [CallTruetype font_path_1 font_size] s)) /\
  (forall e1 f,
      truetype env font_path_1 font_size = Raise e1 ->
      truetype env font_path_2 font_size = Ok f ->
      load_font env s =
      (Ok f, logs [CallTruetype font_path_1 font_size;
                   CallTruetype font_path_2 font_size] s)) /\
  (forall e1 e2,
      truetype env font_path_1 font_size = Raise e1 ->
      truetype env font_path_2 font_size = Raise e2 ->
      load_font env s =
      (load_default env,
       logs [CallTruetype font_path_1 font_size;
             CallTruetype font_path_2 font_size; CallLoadDefault] s)) /\
  (forall s2 e,
      text_step env (clock_state fl env) = (Ok tt, s2) ->
      write_file env output_path (png_encode env (image s2)) = Some e ->
      outcome (main fl env) start = Raise e /\
      files (exec (main fl env) start) = files s2 /\
      stdout (exec (main fl env) start) = stdout s2).
Proof.
  split; [|split; [|split]].
  - intros f H. rewrite load_font_run. unfold selected_font, font_calls, pick_font.
    now rewrite H.
  - intros e1 f H1 H2. rewrite load_font_run. unfold selected_font, font_calls, pick_font.
    now rewrite H1, H2.
  - intros e1 e2 H1 H2. rewrite load_font_run. unfold selected_font, font_calls, pick_font.
    now rewrite H1, H2.
  - intros s2 e H H0. unfold outcome, exec.
    rewrite (main_run Font fl env), H, save_step_run, H0. cbn [fst snd log files stdout].
    split; [reflexivity|]. split; reflexivity.
Qed.

Lemma font_cascade_witness :
  truetype helvetica_env font_path_1 font_size = Raise no_such_file /\
  truetype helvetica_env font_path_2 font_size = Ok font_path_2 /\
  load_font helvetica_env start =
  (Ok font_path_2, logs [CallTruetype font_path_1 font_size;
                         CallTruetype font_path_2 font_size] start).
Proof.
  split; [reflexivity|]. split; [reflexivity|].
  exact (proj1 (proj2 (font_cascade string exact_fl helvetica_env start))
           no_such_file font_path_2 eq_refl eq_refl).
Defined.

(** C5 as the specification words it does not hold: two machines with the
    same fonts and the same library, one with the output directory missing,
    run differently. *)
Lemma fonts_not_the_only_dependence :
  truetype mac_env = truetype readonly_env /\
  load_default mac_env = load_default readonly_env /\
  textbbox mac_env = textbbox readonly_env /\
  text mac_env = text readonly_env /\
  raster_line mac_env = raster_line readonly_env /\
  raster_ellipse mac_env = raster_ellipse readonly_env /\
  png_encode mac_env = png_encode readonly_env /\
  outcome (main exact_fl mac_env) start = Ok tt /\
  files (exec (main exact_fl mac_env) start) = [(output_path, "PNG"%string)] /\
  outcome (main exact_fl readonly_env) start = Raise permission_denied /\
  files (exec (main exact_fl readonly_env) start) = [].
Proof.
  do 7 (split; [reflexivity|]).
  unfold outcome, exec.
  rewrite (main_run string exact_fl mac_env), (main_run string exact_fl readonly_env).
  pose proof (clock_state_files string exact_fl mac_env) as Hm.
  pose proof (clock_state_files string exact_fl readonly_env) as Hr.
  revert Hm Hr.
  generalize (clock_state exact_fl mac_env). generalize (clock_state exact_fl readonly_env).
  intros s s' Hm Hr.
  rewrite (text_step_ok string mac_env s' font_path_1 (0, 40, 240, 170) _ _
             eq_refl eq_refl eq_refl eq_refl).
  rewrite (text_step_ok string readonly_env s font_path_1 (0, 40, 240, 170) _ _
             eq_refl eq_refl eq_refl eq_refl).
  rewrite !save_step_run.
  change (write_file mac_env output_path) with (fun _ : string => @None Exn).
  change (write_file readonly_env output_path) with (fun _ : string => Some permission_denied).
  cbn beta iota. state_simpl. rewrite Hm, Hr.
  repeat split.
Qed.

(** ** Failures in the text overlay *)

Lemma exec_clock_steps (Font : Type) (fl : FloatEnv) (env : Env Font) :
  exec (clock_steps fl env) start = clock_state fl env.
Proof. unfold exec. now rewrite (clock_steps_run fl env start). Qed.

(** The script from an exception that reaches the outer handler. *)
Lemma main_caught (Font : Type) (fl : FloatEnv) (env : Env Font) (e : Exn) (s' : State Font) :
  text_body_result env (clock_state fl env) = (Raise e, s') ->
  exn_is_Exception e = true ->
  (forall bytes, write_file env output_path bytes = None) ->
  main fl env start =
  (Ok tt, printed success_line
            (written output_path (png_encode env (image s'))
               (log (CallSave output_path) (printed (diagnostic e) s')))).
Proof.
  intros Hbody Hexc Hwrite.
  rewrite (main_run Font fl env), text_step_run, Hbody, Hexc, save_step_run, Hwrite.
  reflexivity.
Qed.

(** C3, as amended: an exception deriving from [Exception] that reaches the
    outer handler is caught, one line [Could not add text: ...] is printed,
    and the script goes on to save the canvas as it is at that moment and
    to print the success line.  When the exception comes from the default
    font load (both file loads having failed), from the measurement or from
    the shadow draw, the saved canvas is the clock without text.  When it
    comes from the draw of the white text, the shadow is already on the
    canvas and is saved with it.  (Exceptions of the two font file loads
    do not reach the handler: the cascade absorbs them.) *)
Theorem text_failure_handled (Font : Type) (fl : FloatEnv) (env : Env Font) (e : Exn) :
  exn_is_Exception e = true ->
  (forall bytes, write_file env output_path bytes = None) ->
  let s1 := exec (clock_steps fl env) start in
  let final := exec (main fl env) start in
  ((selected_font env = Raise e \/
    (exists f, selected_font env = Ok f /\ textbbox env (0, 0) text_AT f = Raise e) \/
    (exists f bbox,
        selected_font env = Ok f /\ textbbox env (0, 0) text_AT f = Ok bbox /\
        text env (im_data (image s1)) (shadow_xy bbox) text_AT shadow_fill f = Raise e)) ->
   outcome (main fl env) start = Ok tt /\
   stdout final = [diagnostic e; success_line] /\
   image final = image s1 /\
   files final = [(output_path, png_encode env (image s1))]) /\
  (forall f bbox px1,
      selected_font env = Ok f -> textbbox env (0, 0) text_AT f = Ok bbox ->
      text env (im_data (image s1)) (shadow_xy bbox) text_AT shadow_fill f = Ok px1 ->
      text env px1 (main_xy bbox) text_AT white_fill f = Raise e ->
      outcome (main fl env) start = Ok tt /\
      stdout final = [diagnostic e; success_line] /\
      im_data (image final) = px1 /\
      files final = [(output_path, png_encode env (image final))]).
Proof.
  intros Hexc Hwrite s1 final. subst s1 final.
  rewrite exec_clock_steps. unfold outcome, exec.
  pose proof (clock_state_files Font fl env) as Hfiles.
  pose proof (clock_state_stdout Font fl env) as Hout.
  split.
  - intros Hcase.
    assert (Hbody : exists s', text_body_result env (clock_state fl env) = (Raise e, s') /\
                               image s' = image (clock_state fl env) /\
                               stdout s' = [] /\ files s' = []).
    { unfold text_body_result.
      destruct Hcase as [Hf | [(f & Hf & Hb) | (f & bbox & Hf & Hb & Ht)]].
      - rewrite Hf. eexists. split; [reflexivity|]. state_simpl.
        split; [reflexivity|]. split; assumption.
      - rewrite Hf, Hb. eexists. split; [reflexivity|]. state_simpl.
        split; [reflexivity|]. split; assumption.
      - rewrite Hf, Hb, Ht. eexists. split; [reflexivity|]. state_simpl.
        split; [reflexivity|]. split; assumption. }
    destruct Hbody as (s' & Hbody & Him & Hso & Hsf).
    rewrite (main_caught Font fl env e s' Hbody Hexc Hwrite).
    state_simpl. rewrite Him, Hso, Hsf.
    split; [reflexivity|]. split; [reflexivity|]. split; reflexivity.
  - intros f bbox px1 Hf Hb Ht1 Ht2.
    assert (Hbody : exists s', text_body_result env (clock_state fl env) = (Raise e, s') /\
                               im_data (image s') = px1 /\
                               stdout s' = [] /\ files s' = []).
    { unfold text_body_result. rewrite Hf, Hb, Ht1, Ht2.
      eexists. split; [reflexivity|]. state_simpl.
        split; [reflexivity|]. split; assumption. }
    destruct Hbody as (s' & Hbody & Him & Hso & Hsf).
    rewrite (main_caught Font fl env e s' Hbody Hexc Hwrite).
    state_simpl. rewrite Him, Hso, Hsf.
    split; [reflexivity|]. split; [reflexivity|]. split; reflexivity.
Qed.

Lemma text_failure_handled_witness :
  exn_is_Exception no_such_file = true /\
  (forall bytes, write_file fontless_env output_path bytes = None) /\
  selected_font fontless_env = Raise no_such_file /\
  outcome (main exact_fl fontless_env) start = Ok tt /\
  stdout (exec (main exact_fl fontless_env) start) =
    ["Could not add text: cannot open resource"%string; success_line].
Proof.
  split; [reflexivity|]. split; [reflexivity|]. split; [reflexivity|].
  pose proof (proj1 (text_failure_handled string exact_fl fontless_env no_such_file
                       eq_refl (fun _ => eq_refl)) (or_introl eq_refl)) as (H1 & H2 & _).
  split; [exact H1 | exact H2].
Defined.

Lemma paint_all_skip (Font : Type) (shs : list (Shape Font)) (im : Image) (x y : Z) :
  (forall sh, In sh shs -> sh_mask sh x y = false) ->
  im_data (paint_all shs im) x y = im_data im x y.
Proof.
  revert im. induction shs as [|sh shs IH]; intros im H; [reflexivity|].
  cbn [paint_all fold_left].
  fold (paint_all shs (paint (sh_mask sh) (sh_ink sh) im)).
  rewrite IH by (intros sh' Hsh'; apply H; now right).
  cbn [paint im_data]. rewrite (H sh (or_introl eq_refl)). now rewrite andb_false_r.
Qed.

(** Where no line is rasterised and the hub does not reach, a pixel of the
    clock face is white once the clock steps are done. *)
Lemma clock_pixel_on_face (Font : Type) (fl : FloatEnv) (env : Env Font) (x y : Z) :
  (forall xy w, raster_line env xy w x y = false) ->
  0 <= x < size -> 0 <= y < size ->
  ellipse_mask (raster_ellipse env) face_bbox x y = true ->
  ellipse_mask (raster_ellipse env) hub_bbox x y = false ->
  im_data (image (clock_state fl env)) x y = (255, 255, 255).
Proof.
  intros Hraster Hx Hy Hface Hhub.
  rewrite clock_state_eq. cbn [image]. unfold clock_shapes.
  rewrite paint_all_app.
  change ([face_shape env] ++ map (marker_shape fl env) (range 12) ++
          hands_shapes fl env ++ [hub_shape env])
    with ([face_shape env] ++
          (map (marker_shape fl env) (range 12) ++ hands_shapes fl env ++ [hub_shape env])).
  rewrite paint_all_app.
  rewrite paint_all_skip.
  - cbn [paint_all fold_left face_shape sh_mask sh_ink paint im_data].
    rewrite Hface, andb_true_r.
    rewrite (in_image_frame _ (Image_new ModeRGB size size)) by apply paint_all_frame.
    now rewrite in_image_new.
  - intros sh Hsh. apply in_app_or in Hsh. destruct Hsh as [Hsh|Hsh].
    + apply in_map_iff in Hsh. destruct Hsh as (i & <- & _). apply Hraster.
    + apply in_app_or in Hsh. destruct Hsh as [Hsh|Hsh].
      * destruct Hsh as [<-|[<-|[]]]; apply Hraster.
      * destruct Hsh as [<-|[]]. exact Hhub.
Qed.

(** C3 as the specification words it does not hold.  With only the second
    font file installed, the load of the first raises inside the step, yet
    no diagnostic is printed and the text is drawn.  Where drawing the white
    text raises after the shadow went through, the diagnostic is printed
    and the canvas is saved with the shadow on it: at (405, 838) the clock
    is white and the saved canvas is black. *)
Lemma text_exceptions_not_all_reported :
  (truetype helvetica_env font_path_1 font_size = Raise no_such_file /\
   outcome (main exact_fl helvetica_env) start = Ok tt /\
   stdout (exec (main exact_fl helvetica_env) start) = [success_line] /\
   calls (exec (main exact_fl helvetica_env) start) =
     calls (exec (clock_steps exact_fl helvetica_env) start) ++
     [CallTruetype font_path_1 font_size; CallTruetype font_path_2 font_size;
      CallTextbbox (0, 0) "AT" font_path_2;
      CallText (400, 832) "AT" (FillRGBA (0, 0, 0, 128)) font_path_2;
      CallText (392, 824) "AT" (FillName "white") font_path_2;
      CallSave output_path]) /\
  (text white_fails_env (fun _ _ => (0, 0, 0)) (392, 824) "AT" (FillName "white")
     font_path_1 = Raise (mkExn true "cannot allocate ink") /\
   outcome (main exact_fl white_fails_env) start = Ok tt /\
   stdout (exec (main exact_fl white_fails_env) start) =
     ["Could not add text: cannot allocate ink"%string; success_line] /\
   im_data (image (exec (clock_steps exact_fl white_fails_env) start)) 405 838 =
     (255, 255, 255) /\
   im_data (image (exec (main exact_fl white_fails_env) start)) 405 838 = (0, 0, 0)).
Proof.
  split.
  - split; [reflexivity|].
    rewrite (exec_clock_steps string exact_fl helvetica_env). unfold outcome, exec.
    rewrite (main_run string exact_fl helvetica_env).
    pose proof (clock_state_stdout string exact_fl helvetica_env) as Hout.
    revert Hout. generalize (clock_state exact_fl helvetica_env). intros s Hout.
    rewrite (text_step_ok string helvetica_env s font_path_2 (0, 40, 240, 170) _ _
               eq_refl eq_refl eq_refl eq_refl).
    rewrite save_step_run.
    change (write_file helvetica_env output_path) with (fun _ : string => @None Exn).
    cbn beta iota. state_simpl. rewrite calls_logs, Hout, <- !app_assoc.
    split; [reflexivity|]. split; reflexivity.
  - split; [reflexivity|].
    rewrite (exec_clock_steps string exact_fl white_fails_env). unfold outcome, exec.
    assert (Hwhite : im_data (image (clock_state exact_fl white_fails_env)) 405 838 =
                     (255, 255, 255)).
    { apply clock_pixel_on_face; try reflexivity; unfold size; lia. }
    pose proof (clock_state_stdout string exact_fl white_fails_env) as Hout.
    rewrite (main_run string exact_fl white_fails_env).
    revert Hwhite Hout. generalize (clock_state exact_fl white_fails_env).
    intros s Hwhite Hout.
    rewrite text_step_run.
    assert (Hbody : exists px1,
               text_body_result white_fails_env s =
               (Raise (mkExn true "cannot allocate ink"),
                log (CallText (392, 824) text_AT white_fill font_path_1)
                  (with_pixels px1
                     (logs (font_calls white_fails_env ++
                            [CallTextbbox (0, 0) text_AT font_path_1;
                             CallText (400, 832) text_AT shadow_fill font_path_1]) s))) /\
               px1 405 838 = (0, 0, 0)).
    { eexists. split; [reflexivity|]. reflexivity. }
    destruct Hbody as (px1 & Hbody & Hpx). rewrite Hbody.
    cbn [exn_is_Exception]. rewrite save_step_run.
    change (write_file white_fails_env output_path) with (fun _ : string => @None Exn).
    cbn beta iota. state_simpl. rewrite Hout.
    split; [reflexivity|]. split; [reflexivity|]. split; [exact Hwhite | exact Hpx].
Qed.

(** ** Dimensions and mode *)

Lemma clock_state_frame (Font : Type) (fl : FloatEnv) (env : Env Font) :
  same_frame (image (clock_state fl env)) (Image_new ModeRGB size size).
Proof. rewrite clock_state_eq. cbn [image]. apply paint_all_frame. Qed.

Lemma text_step_frame (Font : Type) (env : Env Font) (s : State Font) :
  same_frame (image (snd (text_step env s))) (image s) /\
  files (snd (text_step env s)) = files s.
Proof.
  rewrite text_step_run. unfold text_body_result.
  destruct (selected_font env) as [f|e].
  2: { destruct (exn_is_Exception e); state_simpl; split;
       solve [apply same_frame_refl | reflexivity]. }
  destruct (textbbox env (0, 0) text_AT f) as [bbox|e].
  2: { destruct (exn_is_Exception e); state_simpl; split;
       solve [apply same_frame_refl | reflexivity]. }
  destruct (text env (im_data (image s)) (shadow_xy bbox) text_AT shadow_fill f) as [px1|e].
  2: { destruct (exn_is_Exception e); state_simpl; split;
       solve [apply same_frame_refl | reflexivity]. }
  destruct (text env px1 (main_xy bbox) text_AT white_fill f) as [px2|e].
  2: { destruct (exn_is_Exception e); state_simpl; split;
       solve [repeat split | reflexivity]. }
  state_simpl. split; [repeat split | reflexivity].
Qed.

(** C7: whatever the environment answers, the canvas at the end of the run
    is an RGB image (three channels, no alpha) of 1024 by 1024 pixels, and
    the only file the run can write is the encoding of such an image at the
    output path. *)
Theorem image_1024_rgb (Font : Type) (fl : FloatEnv) (env : Env Font) :
  let final := exec (main fl env) start in
  im_mode (image final) = ModeRGB /\
  im_width (image final) = 1024 /\
  im_height (image final) = 1024 /\
  (files final = [] \/
   exists im,
     files final = [(output_path, png_encode env im)] /\
     im_mode im = ModeRGB /\ im_width im = 1024 /\ im_height im = 1024).
Proof.
  intros final. subst final. unfold exec. rewrite (main_run Font fl env).
  pose proof (clock_state_frame Font fl env) as Hframe.
  pose proof (clock_state_files Font fl env) as Hfiles.
  destruct (text_step_frame Font env (clock_state fl env)) as [Hf1 Hf2].
  destruct (text_step env (clock_state fl env)) as [[[]|e] s2]; cbn [snd] in *.
  - rewrite save_step_run.
    destruct (same_frame_trans _ _ _ Hf1 Hframe) as (Hm & Hw & Hh). cbn in Hm, Hw, Hh.
    destruct (write_file env output_path (png_encode env (image s2))); state_simpl.
    + repeat (split; [assumption|]). left. congruence.
    + repeat (split; [assumption|]). right. exists (image s2).
      rewrite Hf2, Hfiles. repeat split; assumption.
  - destruct (same_frame_trans _ _ _ Hf1 Hframe) as (Hm & Hw & Hh). cbn in Hm, Hw, Hh.
    repeat (split; [assumption|]). left. congruence.
Qed.

(** ** Where the primitives lie *)

Section Calls.

Context {Font : Type}.
Variable fl : FloatEnv.
Variable env : Env Font.

Lemma font_calls_ok : Forall (text_step_call env) (font_calls env).
Proof.
  unfold font_calls, pick_font.
  destruct (truetype env font_path_1 font_size);
    [constructor; [exact I | constructor]|].
  destruct (truetype env font_path_2 font_size);
    repeat (constructor; [exact I|]); constructor.
Qed.

Lemma text_step_calls (s : State Font) :
  exists l, calls (snd (text_step env s)) = calls s ++ l /\ Forall (text_step_call env) l.
Proof.
  pose proof font_calls_ok as Hfont.
  rewrite text_step_run. unfold text_body_result.
  destruct (selected_font env) as [f|e].
  2: { exists (font_calls env). destruct (exn_is_Exception e); state_simpl;
       rewrite calls_logs; auto. }
  destruct (textbbox env (0, 0) text_AT f) as [bbox|e] eqn:Hb.
  2: { exists (font_calls env ++ [CallTextbbox (0, 0) text_AT f]).
       split.
       - destruct (exn_is_Exception e); state_simpl; rewrite calls_logs;
           now rewrite <- app_assoc.
       - apply Forall_app. split; [exact Hfont|]. constructor; [exact I | constructor]. }
  assert (Hs : text_step_call env (CallText (shadow_xy bbox) text_AT shadow_fill f)).
  { split; [reflexivity|]. exists bbox. auto. }
  assert (Hm : text_step_call env (CallText (main_xy bbox) text_AT white_fill f)).
  { split; [reflexivity|]. exists bbox. auto. }
  destruct (text env (im_data (image s)) (shadow_xy bbox) text_AT shadow_fill f) as [px1|e].
  2: { exists (font_calls env ++ [CallTextbbox (0, 0) text_AT f;
                                  CallText (shadow_xy bbox) text_AT shadow_fill f]).
       split.
       - destruct (exn_is_Exception e); state_simpl; rewrite calls_logs;
           now rewrite <- !app_assoc.
       - apply Forall_app. split; [exact Hfont|].
         constructor; [exact I|]. constructor; [exact Hs|]. constructor. }
  exists (font_calls env ++ [CallTextbbox (0, 0) text_AT f;
                             CallText (shadow_xy bbox) text_AT shadow_fill f;
                             CallText (main_xy bbox) text_AT white_fill f]).
  split.
  - destruct (text env px1 (main_xy bbox) text_AT white_fill f) as [px2|e];
      [|destruct (exn_is_Exception e)]; state_simpl; rewrite calls_logs;
      now rewrite <- !app_assoc.
  - apply Forall_app. split; [exact Hfont|].
    constructor; [exact I|]. constructor; [exact Hs|]. constructor; [exact Hm|]. constructor.
Qed.

(** The calls of a run: those of the clock, then those of the text overlay
    and the save. *)
Lemma main_calls :
  exists l,
    calls (exec (main fl env) start) = map sh_call (clock_shapes fl env) ++ l /\
    Forall (text_step_call env) l.
Proof.
  unfold exec. rewrite (main_run Font fl env).
  destruct (text_step_calls (clock_state fl env)) as (l & Hl & Hok).
  assert (Hc : calls (clock_state fl env) = map sh_call (clock_shapes fl env)).
  { now rewrite clock_state_eq. }
  rewrite Hc in Hl.
  destruct (text_step env (clock_state fl env)) as [[[]|e] s2]; cbn [snd] in *.
  - rewrite save_step_run.
    destruct (write_file env output_path (png_encode env (image s2)));
      state_simpl; exists (l ++ [CallSave output_path]);
      (split; [now rewrite Hl, app_assoc
              | apply Forall_app; split; [exact Hok | constructor; [exact I | constructor]]]).
  - exists l. split; assumption.
Qed.

Lemma clock_call_in_main (sh : Shape Font) :
  In sh (clock_shapes fl env) -> In (sh_call sh) (calls (exec (main fl env) start)).
Proof.
  intros H. destruct main_calls as (l & -> & _).
  apply in_or_app. left. now apply in_map.
Qed.

End Calls.

Lemma sqr_sum_zero (a c : R) : (a * a + c * c <= 0)%R -> a = 0%R /\ c = 0%R.
Proof.
  intros H. pose proof (sum_sqr_nonneg a 0). pose proof (sum_sqr_nonneg c 0).
  split; nra.
Qed.

(** A gradient row: the points from [(0, y)] to [(1024, y)]. *)
Lemma row_extent (y : Z) (z : R * R) :
  on_stroke (IZR 0, IZR y) (IZR size, IZR y) 0 z ->
  (0 <= fst z <= 1024)%R /\ snd z = IZR y.
Proof.
  intros (t & Ht & Hz). unfold dist2 in Hz. cbn [fst snd] in Hz.
  change (IZR size) with 1024%R in Hz.
  replace (0 / 2 * (0 / 2))%R with 0%R in Hz by field.
  apply sqr_sum_zero in Hz. destruct Hz as [Hz1 Hz2]. split; lra.
Qed.

Lemma box_in_canvas (x0 y0 x1' y1' : Z) (z : R * R) :
  0 <= x0 -> x1' < 1024 -> 0 <= y0 -> y1' < 1024 ->
  box_extent x0 y0 x1' y1' z -> in_canvas z.
Proof.
  intros Hx0 Hx1 Hy0 Hy1 [[H1 H2] [H3 H4]].
  apply IZR_le in Hx0, Hy0. apply IZR_lt in Hx1, Hy1.
  unfold in_canvas. lra.
Qed.

Lemma disc_in_canvas (rho : R) (z : R * R) :
  (0 <= rho <= 500)%R -> in_disc rho z -> in_canvas z.
Proof.
  intros Hrho Hz. apply in_disc_box in Hz; [|lra].
  rewrite IZR_center in Hz. unfold in_canvas. lra.
Qed.

Lemma in_canvas_clock_bound (Font : Type) (c : Call Font) (z : R * R) :
  in_canvas z -> clock_bound c z.
Proof.
  intros [Hx Hy]. unfold clock_bound. split; [lra|]. split; [lra|]. intros H. lra.
Qed.

Lemma hand_in_canvas (fl : FloatEnv) (u : R) (len d width : Z) (z : R * R) :
  small u -> accurate u fl ->
  0 <= len <= 400 -> -360 <= d <= 360 -> 0 <= width <= 100 ->
  on_stroke (IZR center, IZR center) (polar fl len (math_radians fl (IZR d))) width z ->
  in_canvas z.
Proof.
  intros Hu Hfl Hlen Hd Hw Hz.
  pose proof (polar_in_disc fl u Hu Hfl len d Hlen Hd) as Hq.
  apply IZR_bounds in Hlen. pose proof (IZR_bounds _ _ _ Hw) as Hw'.
  assert (Hp : in_disc (IZR len + 1) centre) by (apply centre_in_disc; lra).
  apply (stroke_in_disc (IZR len + 1) _ _ width z) in Hz;
    [|lra | lia | exact Hp | exact Hq].
  apply (disc_in_canvas (IZR len + 1 + IZR width / 2)); [lra | exact Hz].
Qed.

Lemma clock_extent (Font : Type) (fl : FloatEnv) (env : Env Font) (u : R)
    (sh : Shape Font) (z : R * R) :
  small u -> accurate u fl ->
  In sh (clock_shapes fl env) -> extent env (sh_call sh) z -> clock_bound (sh_call sh) z.
Proof.
  intros Hu Hfl Hin Hz. unfold clock_shapes in Hin.
  apply in_app_or in Hin. destruct Hin as [Hin|Hin].
  { apply in_map_iff in Hin. destruct Hin as (y & <- & Hy). apply range_In in Hy.
    cbn [gradient_shape line_shape sh_call extent num_R] in *.
    apply row_extent in Hz. destruct Hz as [Hx Hy'].
    pose proof (IZR_bounds y 0 1023 ltac:(unfold size in Hy; lia)) as Hb.
    unfold clock_bound. split; [exact Hx|]. split; [lra|].
    intros _. exists y, (FillRGB (gradient_color y)). split; [exact Hy | reflexivity]. }
  apply in_app_or in Hin. destruct Hin as [Hin|Hin].
  { destruct Hin as [<-|[]]. apply in_canvas_clock_bound.
    cbn [face_shape sh_call extent] in Hz.
    apply (box_in_canvas 132 132 892 892); try lia. exact Hz. }
  apply in_app_or in Hin. destruct Hin as [Hin|Hin].
  { apply in_map_iff in Hin. destruct Hin as (i & <- & Hi). apply range_In in Hi.
    apply in_canvas_clock_bound.
    cbn [marker_shape line_shape sh_call extent num_R] in Hz.
    destruct (marker_ends_in_disc fl u i Hu Hfl Hi) as [Hp Hq].
    apply (stroke_in_disc 351 _ _ 20 z) in Hz; [|lra | lia | exact Hp | exact Hq].
    apply (disc_in_canvas (351 + 20 / 2)); [lra | exact Hz]. }
  apply in_app_or in Hin. destruct Hin as [Hin|Hin].
  { apply in_canvas_clock_bound.
    destruct Hin as [<-|[<-|[]]]; cbn [hour_shape minute_shape line_shape sh_call extent num_R] in Hz.
    - unfold hour_x, hour_y, hour_angle in Hz. rewrite <- surjective_pairing in Hz.
      apply (hand_in_canvas fl u hour_length hour_degrees 30 z Hu Hfl);
        [cbv; split; discriminate | cbv; split; discriminate | lia | exact Hz].
    - unfold minute_x, minute_y, minute_angle in Hz. rewrite <- surjective_pairing in Hz.
      apply (hand_in_canvas fl u minute_length minute_degrees 24 z Hu Hfl);
        [cbv; split; discriminate | cbv; split; discriminate | lia | exact Hz]. }
  destruct Hin as [<-|[]]. apply in_canvas_clock_bound.
  cbn [hub_shape sh_call extent] in Hz.
  apply (box_in_canvas 472 472 552 552); try lia. exact Hz.
Qed.

(** A text box, edges included, lies on the canvas exactly when its
    corners do. *)
Lemma text_box_on_canvas (Font : Type) (env : Env Font) (x y : Z) (txt : string)
    (fill : Fill) (f : Font) (b0 b1 b2 b3 : Z) :
  textbbox env (0, 0) txt f = Ok (b0, b1, b2, b3) -> b0 <= b2 -> b1 <= b3 ->
  ((forall z, extent env (CallText (x, y) txt fill f) z -> in_canvas z) <->
   0 <= x + b0 /\ x + b2 < 1024 /\ 0 <= y + b1 /\ y + b3 < 1024).
Proof.
  intros Hb Hw Hh. cbn [extent]. rewrite Hb. split.
  - intros H.
    assert (Hlo : box_extent (x + b0) (y + b1) (x + b2) (y + b3)
                    (IZR (x + b0), IZR (y + b1))).
    { unfold box_extent. cbn [fst snd].
      split; split; solve [apply Rle_refl | apply IZR_le; lia]. }
    assert (Hhi : box_extent (x + b0) (y + b1) (x + b2) (y + b3)
                    (IZR (x + b2), IZR (y + b3))).
    { unfold box_extent. cbn [fst snd].
      split; split; solve [apply Rle_refl | apply IZR_le; lia]. }
    destruct (H _ Hlo) as [[H1 _] [H3 _]]. destruct (H _ Hhi) as [[_ H2] [_ H4]].
    cbn [fst snd] in *.
    apply le_IZR in H1, H3. apply lt_IZR in H2, H4. lia.
  - intros (H1 & H2 & H3 & H4) z Hz.
    exact (box_in_canvas _ _ _ _ z H1 H2 H3 H4 Hz).
Qed.




(** ** The gradient from row to row *)

Lemma channels_step_all : forallb channels_step (range (size - 1)) = true.
Proof. vm_compute. reflexivity. Qed.

(** X1: the gradient is smooth.  From a row to the next one no channel
    changes by more than one unit; red never increases, green and blue
    never decrease. *)
Theorem gradient_smooth (y : Z) :
  0 <= y < 1023 ->
  exists r0 g0 b0 r1' g1' b1',
    (r y, g y, b y) = (Some r0, Some g0, Some b0) /\
    (r (y + 1), g (y + 1), b (y + 1)) = (Some r1', Some g1', Some b1') /\
    r1' <= r0 <= r1' + 1 /\ g0 <= g1' <= g0 + 1 /\ b0 <= b1' <= b0 + 1.
Proof.
  intros Hy.
  pose proof (range_forallb (size - 1) _ channels_step_all y Hy) as H.
  unfold channels_step in H.
  destruct (r y) as [r0|]; [|discriminate].
  destruct (g y) as [g0|]; [|discriminate].
  destruct (b y) as [b0|]; [|discriminate].
  destruct (r (y + 1)) as [r1'|]; [|discriminate].
  destruct (g (y + 1)) as [g1'|]; [|discriminate].
  destruct (b (y + 1)) as [b1'|]; [|discriminate].
  exists r0, g0, b0, r1', g1', b1'.
  repeat (apply andb_prop in H; destruct H as [H ?]).
  repeat match goal with
         | H : (_ <=? _) = true |- _ => apply Z.leb_le in H
         end.
  split; [reflexivity|]. split; [reflexivity|]. lia.
Qed.

Lemma gradient_smooth_witness :
  0 <= 20 < 1023 /\
  exists r0 g0 b0 r1' g1' b1',
    (r 20, g 20, b 20) = (Some r0, Some g0, Some b0) /\
    (r 21, g 21, b 21) = (Some r1', Some g1', Some b1') /\
    r1' <= r0 <= r1' + 1 /\ g0 <= g1' <= g0 + 1 /\ b0 <= b1' <= b0 + 1.
Proof.
  split; [lia|]. apply (gradient_smooth 20). lia.
Defined.

(** ** Where the text is put *)

(** X4: how far off centre the white text sits.  Its left margin exceeds
    its right one by twice the left offset [b0] of the measured box, less
    one when the measured width is odd.  So the two margins are equal
    exactly when the box starts at 0 and its width is even, and they differ
    by at most one pixel exactly when the box starts at 0, or starts at 1
    with an odd width. *)
Theorem text_centring (b0 b1 b2 b3 : Z) :
  let bbox := (b0, b1, b2, b3) in
  let odd := (b2 - b0) mod 2 in
  left_margin bbox - right_margin bbox = 2 * b0 - odd /\
  (left_margin bbox = right_margin bbox <-> b0 = 0 /\ odd = 0) /\
  (-1 <= left_margin bbox - right_margin bbox <= 1 <-> b0 = 0 \/ (b0 = 1 /\ odd = 1)).
Proof.
  intros bbox odd. subst bbox odd. unfold left_margin, right_margin, text_x, size.
  pose proof (Z.div_mod (1024 - (b2 - b0)) 2 ltac:(lia)) as Hdm.
  pose proof (Z.mod_pos_bound (1024 - (b2 - b0)) 2 ltac:(lia)) as Hm.
  pose proof (Z.div_mod (b2 - b0) 2 ltac:(lia)) as Hdw.
  pose proof (Z.mod_pos_bound (b2 - b0) 2 ltac:(lia)) as Hw.
  set (q := (1024 - (b2 - b0)) / 2) in *. set (m := (1024 - (b2 - b0)) mod 2) in *.
  set (qw := (b2 - b0) / 2) in *. set (mw := (b2 - b0) mod 2) in *.
  assert (Hpar : m = mw) by lia.
  split; [lia|]. split; lia.
Qed.

(** ** How a run ends *)

Lemma diagnostic_not_success (e : Exn) : diagnostic e <> success_line.
Proof. unfold diagnostic, success_line. cbn [append]. discriminate. Qed.

(** The text overlay writes no file; it either ends normally, having
    printed nothing or one diagnostic, or lets through an exception that
    is not an [Exception], having printed nothing. *)
Lemma text_step_outcomes (Font : Type) (env : Env Font) (s : State Font) :
  files (snd (text_step env s)) = files s /\
  ((fst (text_step env s) = Ok tt /\
    (stdout (snd (text_step env s)) = stdout s \/
     exists e, stdout (snd (text_step env s)) = stdout s ++ [diagnostic e])) \/
   (exists e, text_step env s = (Raise e, snd (text_body env s)) /\
              fst (text_body env s) = Raise e /\
              exn_is_Exception e = false /\
              stdout (snd (text_step env s)) = stdout s)).
Proof.
  rewrite text_step_run, text_body_run. unfold text_body_result.
  destruct (selected_font env) as [f|e].
  2: { destruct (exn_is_Exception e) eqn:He; state_simpl; (split; [reflexivity|]);
       [left; split; [reflexivity | right; now exists e]
       |right; exists e; repeat split; assumption]. }
  destruct (textbbox env (0, 0) text_AT f) as [bbox|e].
  2: { destruct (exn_is_Exception e) eqn:He; state_simpl; (split; [reflexivity|]);
       [left; split; [reflexivity | right; now exists e]
       |right; exists e; repeat split; assumption]. }
  destruct (text env (im_data (image s)) (shadow_xy bbox) text_AT shadow_fill f) as [px1|e].
  2: { destruct (exn_is_Exception e) eqn:He; state_simpl; (split; [reflexivity|]);
       [left; split; [reflexivity | right; now exists e]
       |right; exists e; repeat split; assumption]. }
  destruct (text env px1 (main_xy bbox) text_AT white_fill f) as [px2|e].
  2: { destruct (exn_is_Exception e) eqn:He; state_simpl; (split; [reflexivity|]);
       [left; split; [reflexivity | right; now exists e]
       |right; exists e; repeat split; assumption]. }
  state_simpl. split; [reflexivity|]. left. split; [reflexivity | now left].
Qed.

(** X6: how a run can end, whatever the environment.  The run ends
    normally exactly when the output file is written, and exactly when the
    success line is printed; the file written is the encoding of the
    canvas as it is at the end; otherwise no file is written.  At most two
    lines are printed: a diagnostic of the text overlay, then the success
    line. *)
Theorem run_outcome (Font : Type) (fl : FloatEnv) (env : Env Font) :
  let final := exec (main fl env) start in
  (outcome (main fl env) start = Ok tt <->
   files final = [(output_path, png_encode env (image final))]) /\
  (outcome (main fl env) start = Ok tt <-> In success_line (stdout final)) /\
  (outcome (main fl env) start <> Ok tt -> files final = []) /\
  (stdout final = [] \/ stdout final = [success_line] \/
   exists e, stdout final = [diagnostic e] \/
             stdout final = [diagnostic e; success_line]).
Proof.
  intros final. subst final. unfold outcome, exec. rewrite (main_run Font fl env).
  pose proof (clock_state_files Font fl env) as Hfiles.
  pose proof (clock_state_stdout Font fl env) as Hout.
  destruct (text_step_outcomes Font env (clock_state fl env)) as [Hf Hcases].
  rewrite Hfiles in Hf. rewrite Hout in Hcases. cbn [app] in Hcases.
  destruct Hcases as [[Hok Hlines] | (e & Hstep & _ & _ & Hlines)].
  - destruct (text_step env (clock_state fl env)) as [res s2]. cbn [fst snd] in *.
    subst res. rewrite save_step_run.
    destruct (write_file env output_path (png_encode env (image s2))) as [e|];
      state_simpl; rewrite Hf.
    + split; [split; discriminate|]. split.
      * split; [discriminate|]. intros Hin.
        destruct Hlines as [Hl | [e' Hl]]; rewrite Hl in Hin; [destruct Hin|].
        destruct Hin as [Hin|[]]. now apply diagnostic_not_success in Hin.
      * split; [reflexivity|].
        destruct Hlines as [Hl | [e' Hl]]; rewrite Hl; [now left|].
        right. right. exists e'. now left.
    + split; [split; reflexivity|]. split.
      * split; [|reflexivity]. intros _. apply in_or_app. right. now left.
      * split; [intros H; now elim H|].
        destruct Hlines as [Hl | [e' Hl]]; rewrite Hl; [right; now left|].
        right. right. exists e'. now right.
  - rewrite Hstep in *. cbn [fst snd] in *. rewrite Hf, Hlines.
    split; [split; discriminate|]. split; [split; [discriminate | intros []]|].
    split; [reflexivity | now left].
Qed.

(** X5: an exception that does not derive from [Exception] (a keyboard
    interrupt, say) raised by the default font load, the measurement or a
    text draw is not caught by [except Exception]: the run stops where the
    body of the [try] raised, with that exception, and nothing is printed
    or written. *)
Theorem interrupt_propagates (Font : Type) (fl : FloatEnv) (env : Env Font) (e : Exn) :
  exn_is_Exception e = false ->
  outcome (text_body env) (exec (clock_steps fl env) start) = Raise e ->
  outcome (main fl env) start = Raise e /\
  exec (main fl env) start = exec (text_body env) (exec (clock_steps fl env) start) /\
  stdout (exec (main fl env) start) = [] /\
  files (exec (main fl env) start) = [].
Proof.
  intros He Hbody. rewrite (exec_clock_steps Font fl env) in *.
  unfold outcome, exec in *. rewrite (main_run Font fl env).
  pose proof (clock_state_files Font fl env) as Hfiles.
  pose proof (clock_state_stdout Font fl env) as Hout.
  destruct (text_step_outcomes Font env (clock_state fl env)) as [Hf Hcases].
  assert (Hstep : text_step env (clock_state fl env) =
                  (Raise e, snd (text_body env (clock_state fl env)))).
  { unfold text_step, try_except.
    destruct (text_body env (clock_state fl env)) as [res s']. cbn [fst snd] in *.
    subst res. now rewrite He. }
  rewrite Hstep in *. cbn [fst snd] in *.
  split; [reflexivity|]. split; [reflexivity|].
  split; [|congruence].
  destruct Hcases as [[Hok _] | (e' & _ & _ & _ & Hlines)]; [discriminate | congruence].
Qed.

Lemma interrupt_propagates_witness :
  exn_is_Exception keyboard_interrupt = false /\
  outcome (main exact_fl interrupted_env) start = Raise keyboard_interrupt /\
  files (exec (main exact_fl interrupted_env) start) = [].
Proof.
  split; [reflexivity|].
  assert (Hbody : outcome (text_body interrupted_env)
                    (exec (clock_steps exact_fl interrupted_env) start) =
                  Raise keyboard_interrupt).
  { generalize (exec (clock_steps exact_fl interrupted_env) (@start string)). intros s.
    unfold outcome. rewrite text_body_run. reflexivity. }
  pose proof (interrupt_propagates string exact_fl interrupted_env keyboard_interrupt
                eq_refl Hbody) as (H1 & _ & _ & H2).
  split; [exact H1 | exact H2].
Defined.

(** X7: the run where nothing fails.  When a font loads, the measurement
    and both text draws go through and the file can be written, the run
    ends normally; it prints the success line and nothing else; after the
    clock's calls come the font loads, one measurement at the origin, the
    shadow in translucent black at the anchor moved by (8, 8), the text in
    white at the anchor, and the save, in that order; the canvas holds what
    the second draw returned and that canvas is the file. *)
Theorem run_without_failure (Font : Type) (fl : FloatEnv) (env : Env Font)
    (f : Font) (bbox : Z * Z * Z * Z) (px1 px2 : Pixels) :
  let s1 := exec (clock_steps fl env) start in
  let final := exec (main fl env) start in
  selected_font env = Ok f ->
  textbbox env (0, 0) text_AT f = Ok bbox ->
  text env (im_data (image s1)) (shadow_xy bbox) text_AT shadow_fill f = Ok px1 ->
  text env px1 (main_xy bbox) text_AT white_fill f = Ok px2 ->
  (forall bytes, write_file env output_path bytes = None) ->
  outcome (main fl env) start = Ok tt /\
  stdout final = [success_line] /\
  calls final =
    calls s1 ++ font_calls env ++
    [CallTextbbox (0, 0) text_AT f;
     CallText (shadow_xy bbox) text_AT (FillRGBA (0, 0, 0, 128)) f;
     CallText (main_xy bbox) text_AT (FillName "white") f;
     CallSave output_path] /\
  im_data (image final) = px2 /\
  files final = [(output_path, png_encode env (image final))].
Proof.
  intros s1 final Hf Hb H1 H2 Hwrite. subst s1 final.
  rewrite (exec_clock_steps Font fl env) in *. unfold outcome, exec.
  rewrite (main_run Font fl env).
  rewrite (text_step_ok Font env (clock_state fl env) f bbox px1 px2 Hf Hb H1 H2).
  rewrite save_step_run, Hwrite. state_simpl.
  rewrite calls_logs, (clock_state_stdout Font fl env), (clock_state_files Font fl env).
  rewrite <- !app_assoc.
  split; [reflexivity|]. split; [reflexivity|]. split; [reflexivity|].
  split; reflexivity.
Qed.

Lemma run_without_failure_witness :
  selected_font mac_env = Ok font_path_1 /\
  (forall bytes, write_file mac_env output_path bytes = None) /\
  outcome (main exact_fl mac_env) start = Ok tt /\
  stdout (exec (main exact_fl mac_env) start) = [success_line].
Proof.
  split; [reflexivity|]. split; [reflexivity|].
  pose proof (run_without_failure string exact_fl mac_env font_path_1 (0, 40, 240, 170) _ _
                eq_refl eq_refl eq_refl eq_refl (fun _ => eq_refl)) as (H1 & H2 & _).
  split; [exact H1 | exact H2].
Defined.

(** ** The layers of the clock *)

Lemma ellipse_mask_in_box (raster : Z * Z * Z * Z -> Z -> Z -> bool)
    (x0 y0 x1' y1' x y : Z) :
  ellipse_mask raster (x0, y0, x1', y1') x y = true ->
  x0 <= x <= x1' /\ y0 <= y <= y1'.
Proof.
  unfold ellipse_mask, in_box. intros H.
  apply andb_prop in H. destruct H as [H _].
  apply andb_prop in H. destruct H as [H H4].
  apply andb_prop in H. destruct H as [H H3].
  apply andb_prop in H. destruct H as [H1 H2].
  apply Z.leb_le in H1, H2, H3, H4. lia.
Qed.

(** The mask of a circle given by its box covers the disc. *)
Lemma circle_mask_disc (raster : Z * Z * Z * Z -> Z -> Z -> bool) (c rad x y : Z) :
  0 < rad -> (x - c) ^ 2 + (y - c) ^ 2 <= rad ^ 2 ->
  ellipse_mask raster (c - rad, c - rad, c + rad, c + rad) x y = true.
Proof.
  intros Hrad Hle. unfold ellipse_mask, in_box, inscribed.
  assert (Hx : - rad <= x - c <= rad)
    by (apply (sq_le_bound (x - c) (y - c) rad); [lia | exact Hle]).
  assert (Hy : - rad <= y - c <= rad).
  { apply (sq_le_bound (y - c) (x - c) rad); [lia | now rewrite Z.add_comm]. }
  apply andb_true_intro. split.
  - repeat (apply andb_true_intro; split); apply Z.leb_le; lia.
  - apply orb_true_iff. left. apply Z.leb_le.
    replace (c + rad - (c - rad)) with (2 * rad) by ring.
    replace (c - rad + (c + rad)) with (2 * c) by ring.
    replace ((2 * x - 2 * c) ^ 2 * (2 * rad) ^ 2 + (2 * y - 2 * c) ^ 2 * (2 * rad) ^ 2)
      with (16 * rad ^ 2 * ((x - c) ^ 2 + (y - c) ^ 2)) by ring.
    replace ((2 * rad) ^ 2 * (2 * rad) ^ 2) with (16 * rad ^ 2 * rad ^ 2) by ring.
    apply Z.mul_le_mono_nonneg_l; [rewrite Z.pow_2_r; nia | exact Hle].
Qed.

Lemma pixel_paint (mask : Z -> Z -> bool) (ink : Color) (im : Image) (x y : Z) :
  in_image im x y = true ->
  im_data (paint mask ink im) x y = if mask x y then ink else im_data im x y.
Proof. intros H. cbn [paint im_data]. now rewrite H. Qed.

Lemma paint_all_in_image (Font : Type) (shs : list (Shape Font)) (im : Image) (x y : Z) :
  in_image (paint_all shs im) x y = in_image im x y.
Proof. apply in_image_frame, paint_all_frame. Qed.

(** Drawing is clipped: off the image nothing changes. *)
Lemma paint_all_outside (Font : Type) (shs : list (Shape Font)) (im : Image) (x y : Z) :
  in_image im x y = false -> im_data (paint_all shs im) x y = im_data im x y.
Proof.
  revert im. induction shs as [|sh shs IH]; intros im H; [reflexivity|].
  cbn [paint_all fold_left].
  fold (paint_all shs (paint (sh_mask sh) (sh_ink sh) im)).
  rewrite IH by (rewrite (in_image_frame _ im) by apply paint_frame; exact H).
  cbn [paint im_data]. now rewrite H.
Qed.

Lemma existsb_over_map {A B : Type} (f : B -> bool) (h : A -> B) (l : list A) :
  existsb f (map h l) = existsb (fun a => f (h a)) l.
Proof. induction l as [|a l IH]; [reflexivity|]. cbn [map existsb]. now rewrite IH. Qed.

(** Shapes of one ink: a pixel takes the ink when one of them covers it. *)
Lemma paint_all_same_ink (Font : Type) (shs : list (Shape Font)) (ink : Color)
    (im : Image) (x y : Z) :
  (forall sh, In sh shs -> sh_ink sh = ink) ->
  in_image im x y = true ->
  im_data (paint_all shs im) x y =
  if existsb (fun sh => sh_mask sh x y) shs then ink else im_data im x y.
Proof.
  revert im. induction shs as [|sh shs IH]; intros im Hink Hin; [reflexivity|].
  cbn [paint_all fold_left existsb].
  fold (paint_all shs (paint (sh_mask sh) (sh_ink sh) im)).
  rewrite IH by (auto using in_cons).
  destruct (existsb (fun sh0 => sh_mask sh0 x y) shs); [now rewrite orb_true_r|].
  rewrite orb_false_r, pixel_paint by exact Hin.
  now rewrite (Hink sh (or_introl eq_refl)).
Qed.

Lemma on_canvas_spec (x y : Z) :
  on_canvas x y = true <-> 0 <= x < size /\ 0 <= y < size.
Proof.
  unfold on_canvas. rewrite !andb_true_iff, !Z.leb_le, !Z.ltb_lt. lia.
Qed.

(** The canvas after the clock steps, on the canvas. *)
Lemma clock_pixels_on (Font : Type) (fl : FloatEnv) (env : Env Font) (x y : Z) :
  0 <= x < size -> 0 <= y < size ->
  im_data (image (clock_state fl env)) x y = clock_pixels fl env x y.
Proof.
  intros Hx Hy. unfold clock_pixels.
  rewrite (proj2 (on_canvas_spec x y) (conj Hx Hy)). cbn [negb].
  rewrite clock_state_eq. cbn [image].
  unfold clock_shapes, hands_shapes. rewrite !paint_all_app.
  set (im0 := Image_new ModeRGB size size).
  set (img := paint_all (map (gradient_shape env) (range size)) im0).
  set (imf := paint_all [face_shape env] img).
  set (imm := paint_all (map (marker_shape fl env) (range 12)) imf).
  set (imh := paint_all [hour_shape fl env; minute_shape fl env] imm).
  assert (H0 : in_image im0 x y = true) by (apply in_image_new; lia).
  assert (Hg : in_image img x y = true) by (unfold img; now rewrite paint_all_in_image).
  assert (Hf : in_image imf x y = true) by (unfold imf; now rewrite paint_all_in_image).
  assert (Hm : in_image imm x y = true) by (unfold imm; now rewrite paint_all_in_image).
  assert (Hh : in_image imh x y = true) by (unfold imh; now rewrite paint_all_in_image).
  assert (Hpg : im_data img x y = gradient_color y).
  { unfold img. rewrite gradient_pixels; [|exact H0 | lia].
    now rewrite existsb_range by lia. }
  assert (Hpf : im_data imf x y =
                if ellipse_mask (raster_ellipse env) face_bbox x y then (255, 255, 255)
                else gradient_color y).
  { unfold imf. cbn [paint_all fold_left face_shape sh_mask sh_ink].
    rewrite pixel_paint by exact Hg. now rewrite Hpg. }
  assert (Hpm : im_data imm x y =
                if existsb
                     (fun i => raster_line env
                                 [(Flt (x1 fl i), Flt (y1 fl i)); (Flt (x2 fl i), Flt (y2 fl i))]
                                 20 x y)
                     (range 12)
                then marker_color else im_data imf x y).
  { unfold imm.
    rewrite (paint_all_same_ink Font _ marker_color) by
      (try exact Hf; intros sh Hsh; apply in_map_iff in Hsh;
       destruct Hsh as (i & <- & _); reflexivity).
    rewrite existsb_over_map. reflexivity. }
  assert (Hph : im_data imh x y =
                if raster_line env
                     [(Int center, Int center); (Flt (minute_x fl), Flt (minute_y fl))] 24 x y
                then (77, 77, 77)
                else if raster_line env
                          [(Int center, Int center); (Flt (hour_x fl), Flt (hour_y fl))] 30 x y
                     then (51, 51, 51) else im_data imm x y).
  { unfold imh. cbn [paint_all fold_left].
    rewrite pixel_paint by (rewrite (in_image_frame _ imm) by apply paint_frame; exact Hm).
    rewrite pixel_paint by exact Hm. reflexivity. }
  cbn [paint_all fold_left hub_shape sh_mask sh_ink].
  rewrite pixel_paint by exact Hh.
  rewrite Hph, Hpm, Hpf. reflexivity.
Qed.

(** Off the canvas the pixels are those of the new image. *)
Lemma clock_pixels_off (Font : Type) (fl : FloatEnv) (env : Env Font) (x y : Z) :
  on_canvas x y = false ->
  im_data (image (clock_state fl env)) x y = clock_pixels fl env x y.
Proof.
  intros H. unfold clock_pixels. rewrite H. cbn [negb].
  rewrite clock_state_eq. cbn [image].
  now rewrite paint_all_outside by exact H.
Qed.

Lemma clock_state_pixels (Font : Type) (fl : FloatEnv) (env : Env Font) :
  im_data (image (clock_state fl env)) = clock_pixels fl env.
Proof.
  apply functional_extensionality. intros x.
  apply functional_extensionality. intros y.
  destruct (on_canvas x y) eqn:H.
  - apply on_canvas_spec in H. now apply clock_pixels_on.
  - now apply clock_pixels_off.
Qed.

(** X2: the clock, layer by layer.  Once the clock steps are done, a pixel
    of the canvas has the hub colour where the library filled the hub's
    ellipse; else the minute hand's grey where it rasterised the minute
    hand; else the hour hand's grey where it rasterised the hour hand; else
    the marker colour where it rasterised one of the twelve markers; else
    white where it filled the face's ellipse; else the gradient colour of
    its row.  The hub's fill covers every pixel within 40 of the centre and
    stays in the box from 472 to 552; the face's fill covers every pixel
    within 380 of the centre and stays in the box from 132 to 892. *)
Theorem clock_layers (Font : Type) (fl : FloatEnv) (env : Env Font) (x y : Z) :
  0 <= x < 1024 -> 0 <= y < 1024 ->
  let hub := ellipse_mask (raster_ellipse env) (472, 472, 552, 552) x y in
  let face := ellipse_mask (raster_ellipse env) (132, 132, 892, 892) x y in
  im_data (image (exec (clock_steps fl env) start)) x y =
    (if hub then (255, 102, 77)
     else if raster_line env
               [(Int 512, Int 512); (Flt (minute_x fl), Flt (minute_y fl))] 24 x y
          then (77, 77, 77)
     else if raster_line env
               [(Int 512, Int 512); (Flt (hour_x fl), Flt (hour_y fl))] 30 x y
          then (51, 51, 51)
     else if existsb
               (fun i => raster_line env
                           [(Flt (x1 fl i), Flt (y1 fl i)); (Flt (x2 fl i), Flt (y2 fl i))]
                           20 x y)
               (range 12)
          then (255, 102, 77)
     else if face then (255, 255, 255)
     else (spec_r y, spec_g y, spec_b y)) /\
  ((x - 512) ^ 2 + (y - 512) ^ 2 <= 40 ^ 2 -> hub = true) /\
  (hub = true -> 472 <= x <= 552 /\ 472 <= y <= 552) /\
  ((x - 512) ^ 2 + (y - 512) ^ 2 <= 380 ^ 2 -> face = true) /\
  (face = true -> 132 <= x <= 892 /\ 132 <= y <= 892).
Proof.
  intros Hx Hy hub face. split.
  - rewrite (exec_clock_steps Font fl env).
    rewrite clock_pixels_on by (unfold size; lia).
    unfold clock_pixels.
    rewrite (proj2 (on_canvas_spec x y)) by (unfold size; lia).
    reflexivity.
  - split; [|split; [|split]].
    + intros H. apply (circle_mask_disc _ 512 40); [lia | exact H].
    + apply ellipse_mask_in_box.
    + intros H. apply (circle_mask_disc _ 512 380); [lia | exact H].
    + apply ellipse_mask_in_box.
Qed.

Lemma clock_layers_witness :
  0 <= 405 < 1024 /\ 0 <= 838 < 1024 /\
  im_data (image (exec (clock_steps exact_fl mac_env) start)) 405 838 = (255, 255, 255) /\
  im_data (image (exec (clock_steps exact_fl mac_env) start)) 10 1000 = (205, 173, 124).
Proof.
  split; [lia|]. split; [lia|]. split.
  - rewrite (proj1 (clock_layers string exact_fl mac_env 405 838 ltac:(lia) ltac:(lia))).
    reflexivity.
  - rewrite (proj1 (clock_layers string exact_fl mac_env 10 1000 ltac:(lia) ltac:(lia))).
    reflexivity.
Defined.

(** ** Two runs *)

Lemma line_mask_ext (r1 r2 : list (num * num) -> Z -> Z -> Z -> bool)
    (xy : list (num * num)) (width : Z) :
  (forall xy' w, r1 xy' w = r2 xy' w) -> line_mask r1 xy width = line_mask r2 xy width.
Proof.
  intros H. unfold line_mask.
  destruct xy as [|[[x0|x0] [y0|y0]] [|[[x1'|x1'] [y1'|y1']] [|p xy]]]; try apply H.
  destruct ((y0 =? y1') && (width <=? 1)); [reflexivity | apply H].
Qed.

Lemma ellipse_mask_ext (r1 r2 : Z * Z * Z * Z -> Z -> Z -> bool) (bbox : Z * Z * Z * Z) :
  (forall bbox', r1 bbox' = r2 bbox') -> ellipse_mask r1 bbox = ellipse_mask r2 bbox.
Proof.
  intros H. apply functional_extensionality. intros x.
  apply functional_extensionality. intros y.
  unfold ellipse_mask. now rewrite H.
Qed.

Lemma clock_shapes_ext (Font : Type) (fl : FloatEnv) (env1 env2 : Env Font) :
  (forall xy w, raster_line env1 xy w = raster_line env2 xy w) ->
  (forall bbox, raster_ellipse env1 bbox = raster_ellipse env2 bbox) ->
  clock_shapes fl env1 = clock_shapes fl env2.
Proof.
  intros H He.
  assert (Hline : forall xy ink w, line_shape env1 xy ink w = line_shape env2 xy ink w).
  { intros xy ink w. unfold line_shape. now rewrite (line_mask_ext _ _ xy w H). }
  assert (Hg : map (gradient_shape env1) (range size) =
               map (gradient_shape env2) (range size)).
  { apply map_ext. intros y. apply Hline. }
  assert (Hm : map (marker_shape fl env1) (range 12) =
               map (marker_shape fl env2) (range 12)).
  { apply map_ext. intros i. apply Hline. }
  unfold clock_shapes, hands_shapes, hour_shape, minute_shape, face_shape, hub_shape.
  now rewrite Hg, Hm, !Hline, !(ellipse_mask_ext _ _ _ He).
Qed.

Lemma pick_font_ext (Font : Type) (env1 env2 : Env Font) :
  truetype env1 font_path_1 font_size = truetype env2 font_path_1 font_size ->
  truetype env1 font_path_2 font_size = truetype env2 font_path_2 font_size ->
  load_default env1 = load_default env2 ->
  pick_font env1 = pick_font env2.
Proof. intros H1 H2 H3. unfold pick_font. now rewrite H1, H2, H3. Qed.

Lemma image_eta (im : Image) :
  mkImage (im_mode im) (im_width im) (im_height im) (im_data im) = im.
Proof. now destruct im. Qed.

(** The text overlay leaves the frame and lays the text over the pixels. *)
Lemma text_step_image (Font : Type) (env : Env Font) (s : State Font) :
  image (exec (text_step env) s) =
  mkImage (im_mode (image s)) (im_width (image s)) (im_height (image s))
    (text_layer env (im_data (image s))).
Proof.
  unfold exec. rewrite text_step_run. unfold text_body_result, text_layer.
  destruct (selected_font env) as [f|e].
  2: { destruct (exn_is_Exception e); state_simpl; now rewrite image_eta. }
  destruct (textbbox env (0, 0) text_AT f) as [bbox|e].
  2: { destruct (exn_is_Exception e); state_simpl; now rewrite image_eta. }
  destruct (text env (im_data (image s)) (shadow_xy bbox) text_AT shadow_fill f) as [px1|e].
  2: { destruct (exn_is_Exception e); state_simpl; now rewrite image_eta. }
  destruct (text env px1 (main_xy bbox) text_AT white_fill f) as [px2|e].
  2: { destruct (exn_is_Exception e); state_simpl; reflexivity. }
  state_simpl. reflexivity.
Qed.

Lemma text_step_icon (Font : Type) (fl : FloatEnv) (env : Env Font) :
  image (exec (text_step env) (clock_state fl env)) = icon fl env.
Proof.
  rewrite text_step_image.
  destruct (clock_state_frame Font fl env) as (Hm & Hw & Hh).
  rewrite Hm, Hw, Hh, clock_state_pixels. reflexivity.
Qed.

(** The canvas a run ends with is the icon in closed form, however the
    run ends. *)
Lemma main_image (Font : Type) (fl : FloatEnv) (env : Env Font) :
  image (exec (main fl env) start) = icon fl env.
Proof.
  rewrite <- (text_step_icon Font fl env).
  unfold exec. rewrite (main_run Font fl env).
  destruct (text_step env (clock_state fl env)) as [[[]|e] s2]; [|reflexivity].
  rewrite save_step_run.
  destruct (write_file env output_path (png_encode env (image s2))); reflexivity.
Qed.

(** A run ends well with the encoded icon written to the output path, or
    in an exception with nothing written. *)
Lemma main_files (Font : Type) (fl : FloatEnv) (env : Env Font) :
  (outcome (main fl env) start = Ok tt /\
   files (exec (main fl env) start) = [(output_path, png_encode env (icon fl env))]) \/
  ((exists e, outcome (main fl env) start = Raise e) /\
   files (exec (main fl env) start) = []).
Proof.
  pose proof (text_step_icon Font fl env) as Hicon.
  pose proof (clock_state_files Font fl env) as Hfiles.
  destruct (text_step_frame Font env (clock_state fl env)) as [_ Hf2].
  unfold outcome, exec in *. rewrite (main_run Font fl env).
  destruct (text_step env (clock_state fl env)) as [[[]|e] s2]; cbn [snd] in *.
  - rewrite save_step_run, Hicon.
    destruct (write_file env output_path (png_encode env (icon fl env))) as [e|].
    + right. state_simpl. split; [now exists e | congruence].
    + left. state_simpl. rewrite Hf2, Hfiles. split; reflexivity.
  - right. cbn [fst snd]. split; [now exists e | congruence].
Qed.

Lemma mac_run_ok : outcome (main exact_fl mac_env) start = Ok tt.
Proof.
  unfold outcome. rewrite (main_run string exact_fl mac_env).
  generalize (clock_state exact_fl mac_env). intros s.
  rewrite (text_step_ok string mac_env s font_path_1 (0, 40, 240, 170) _ _
             eq_refl eq_refl eq_refl eq_refl).
  rewrite save_step_run.
  change (write_file mac_env output_path) with (fun _ : string => @None Exn).
  reflexivity.
Qed.

Lemma same_run_same_state (Font A : Type) (c1 c2 : M Font A) (s : State Font) :
  c1 s = c2 s -> exec c1 s = exec c2 s.
Proof. intros H. unfold exec. now rewrite H. Qed.



(** ** Markers, hands and hub keep apart *)

Section Radial.

Local Open Scope R_scope.

Lemma dot_bound (a1 a2 dc ds h : R) :
  dc * dc + ds * ds = 1 -> 0 <= h -> a1 * a1 + a2 * a2 <= h * h ->
  - h <= a1 * dc + a2 * ds <= h.
Proof.
  intros Hd Hh Ha.
  assert (Hcs : (a1 * dc + a2 * ds) * (a1 * dc + a2 * ds) <= h * h).
  { assert (E : (a1 * dc + a2 * ds) * (a1 * dc + a2 * ds) =
                (a1 * a1 + a2 * a2) * (dc * dc + ds * ds)
                - (a1 * ds - a2 * dc) * (a1 * ds - a2 * dc)) by ring.
    rewrite E, Hd. pose proof (sum_sqr_nonneg (a1 * ds - a2 * dc) 0). lra. }
  split.
  - destruct (Rle_or_lt (- h) (a1 * dc + a2 * ds)) as [H|H]; [exact H|]. exfalso. nra.
  - destruct (Rle_or_lt (a1 * dc + a2 * ds) h) as [H|H]; [exact H|]. exfalso. nra.
Qed.

(** A stroke between two points at least [rho] out along a direction stays
    at least [rho] less half the width out. *)
Lemma stroke_radial (dc ds rho : R) (p q : R * R) (width : Z) (z : R * R) :
  dc * dc + ds * ds = 1 -> (0 <= width)%Z ->
  rho <= radial dc ds p -> rho <= radial dc ds q ->
  on_stroke p q width z ->
  rho - IZR width / 2 <= radial dc ds z.
Proof.
  intros Hd Hw Hp Hq (t & Ht & Hz). apply IZR_le in Hw.
  unfold radial, dist2 in *. cbn [fst snd] in *.
  set (sx := fst p + t * (fst q - fst p)) in *.
  set (sy := snd p + t * (snd q - snd p)) in *.
  pose proof (dot_bound (fst z - sx) (snd z - sy) dc ds (IZR width / 2) Hd ltac:(lra) Hz)
    as [Hlo _].
  assert (Hs : rho <= (sx - IZR center) * dc + (sy - IZR center) * ds).
  { subst sx sy.
    replace ((fst p + t * (fst q - fst p) - IZR center) * dc +
             (snd p + t * (snd q - snd p) - IZR center) * ds)
      with ((1 - t) * ((fst p - IZR center) * dc + (snd p - IZR center) * ds) +
            t * ((fst q - IZR center) * dc + (snd q - IZR center) * ds)) by ring.
    nra. }
  lra.
Qed.

Lemma radial_dist2 (dc ds m : R) (z : R * R) :
  dc * dc + ds * ds = 1 -> 0 <= m -> m <= radial dc ds z -> m * m <= dist2 z centre.
Proof.
  intros Hd Hm Hz. unfold radial, dist2 in *. cbn [fst snd centre] in *.
  set (a1 := fst z - IZR center) in *. set (a2 := snd z - IZR center) in *.
  assert (E : a1 * a1 + a2 * a2 =
              (a1 * dc + a2 * ds) * (a1 * dc + a2 * ds) +
              (a1 * ds - a2 * dc) * (a1 * ds - a2 * dc)).
  { replace (a1 * a1 + a2 * a2) with ((a1 * a1 + a2 * a2) * (dc * dc + ds * ds))
      by (rewrite Hd; ring). ring. }
  rewrite E. pose proof (sum_sqr_nonneg (a1 * ds - a2 * dc) 0). nra.
Qed.

Lemma near_radial (len d : Z) (tol : R) (p : R * R) :
  0 <= tol -> near tol p (ideal_point len d) ->
  IZR len - 2 * tol <= radial (cos (degrees d)) (sin (degrees d)) p.
Proof.
  intros Htol [H1 H2]. unfold radial, ideal_point in *. cbn [fst snd] in *.
  apply Rabs_le_between in H1, H2.
  pose proof (COS_bound (degrees d)) as Hc. pose proof (SIN_bound (degrees d)) as Hs.
  pose proof (sin2_cos2 (degrees d)) as Hu. unfold Rsqr in Hu.
  set (c := cos (degrees d)) in *. set (s := sin (degrees d)) in *.
  set (e1 := fst p - (IZR center + IZR len * c)) in *.
  set (e2 := snd p - (IZR center + IZR len * s)) in *.
  replace ((fst p - IZR center) * c + (snd p - IZR center) * s)
    with (IZR len * (s * s + c * c) + (e1 * c + e2 * s)) by (subst e1 e2; ring).
  rewrite Hu. assert (- tol <= e1 * c) by nra. assert (- tol <= e2 * s) by nra. lra.
Qed.

(** The points of a marker are at least 289 from the centre. *)
Lemma marker_outside (fl : FloatEnv) (u : R) (i : Z) (z : R * R) :
  small u -> accurate u fl -> (0 <= i < 12)%Z ->
  on_stroke (x1 fl i, y1 fl i) (x2 fl i, y2 fl i) 20 z ->
  289 * 289 <= dist2 z centre.
Proof.
  intros Hu Hfl Hi Hz.
  assert (Hd : (-360 <= marker_degrees i <= 360)%Z) by (unfold marker_degrees; lia).
  pose proof (polar_near fl u Hu Hfl outer_radius (marker_degrees i)
                ltac:(cbv; split; discriminate) Hd) as Hp.
  pose proof (polar_near fl u Hu Hfl inner_radius (marker_degrees i)
                ltac:(cbv; split; discriminate) Hd) as Hq.
  destruct Hu as [Hu0 Hu1].
  apply near_radial in Hp; [|lra]. apply near_radial in Hq; [|lra].
  change (IZR outer_radius) with 350 in Hp. change (IZR inner_radius) with 300 in Hq.
  pose proof (sin2_cos2 (degrees (marker_degrees i))) as Hunit. unfold Rsqr in Hunit.
  assert (Hunit' : cos (degrees (marker_degrees i)) * cos (degrees (marker_degrees i)) +
                   sin (degrees (marker_degrees i)) * sin (degrees (marker_degrees i)) = 1)
    by lra.
  apply (radial_dist2 _ _ 289 z Hunit'); [lra|].
  unfold x1, y1, x2, y2, marker_angle in Hz. rewrite <- !surjective_pairing in Hz.
  assert (Hp' : 299 <= radial (cos (degrees (marker_degrees i)))
                         (sin (degrees (marker_degrees i)))
                         (polar fl outer_radius (math_radians fl (IZR (marker_degrees i)))))
    by lra.
  assert (Hq' : 299 <= radial (cos (degrees (marker_degrees i)))
                         (sin (degrees (marker_degrees i)))
                         (polar fl inner_radius (math_radians fl (IZR (marker_degrees i)))))
    by lra.
  pose proof (stroke_radial _ _ 299 _ _ 20 z Hunit' ltac:(lia) Hp' Hq' Hz) as Hs.
  lra.
Qed.

End Radial.

Lemma hand_inside (fl : FloatEnv) (u : R) (len d width : Z) (z : R * R) :
  small u -> accurate u fl ->
  0 <= len <= 260 -> -360 <= d <= 360 -> 0 <= width <= 30 ->
  on_stroke (IZR center, IZR center) (polar fl len (math_radians fl (IZR d))) width z ->
  (dist2 z centre <= 276 * 276)%R.
Proof.
  intros Hu Hfl Hlen Hd Hw Hz.
  pose proof (polar_in_disc fl u Hu Hfl len d ltac:(lia) Hd) as Hq.
  pose proof (IZR_bounds _ _ _ Hlen) as Hlen'. pose proof (IZR_bounds _ _ _ Hw) as Hw'.
  assert (Hp : in_disc (IZR len + 1) centre) by (apply centre_in_disc; lra).
  apply (stroke_in_disc (IZR len + 1) _ _ width z) in Hz;
    [|lra | lia | exact Hp | exact Hq].
  apply (in_disc_weaken _ 276) in Hz; [exact Hz | lra].
Qed.

(** X3: markers, hands and hub keep apart.  With arithmetic accurate to
    [u <= 10^-12], every point of a marker, its width included, lies
    between 289 and 361 from the centre, and every point of a hand, its
    width included, within 276: no point belongs to a marker and to a
    hand, and the hub, of radius 40, reaches no marker.  The order in which
    markers and hands are drawn does not show. *)
Theorem markers_clear_of_hands (fl : FloatEnv) (u : R) (i : Z) (z : R * R) :
  small u -> accurate u fl -> 0 <= i < 12 ->
  on_stroke (x1 fl i, y1 fl i) (x2 fl i, y2 fl i) 20 z ->
  (289 * 289 <= dist2 z centre <= 361 * 361)%R /\
  (forall z',
      on_stroke (IZR center, IZR center) (hour_x fl, hour_y fl) 30 z' \/
      on_stroke (IZR center, IZR center) (minute_x fl, minute_y fl) 24 z' ->
      (dist2 z' centre <= 276 * 276)%R /\ z' <> z).
Proof.
  intros Hu Hfl Hi Hz.
  pose proof (marker_outside fl u i z Hu Hfl Hi Hz) as Hlo.
  assert (Hhi : (dist2 z centre <= 361 * 361)%R).
  { destruct (marker_ends_in_disc fl u i Hu Hfl Hi) as [Hp Hq].
    pose proof (stroke_in_disc 351 _ _ 20 z ltac:(lra) ltac:(lia) Hp Hq Hz) as H.
    unfold in_disc in H. lra. }
  split; [split; assumption|].
  intros z' Hz'.
  assert (Hin : (dist2 z' centre <= 276 * 276)%R).
  { destruct Hz' as [Hz'|Hz'].
    - unfold hour_x, hour_y, hour_angle in Hz'. rewrite <- surjective_pairing in Hz'.
      apply (hand_inside fl u hour_length hour_degrees 30 z' Hu Hfl);
        [cbv; split; discriminate | cbv; split; discriminate | lia | exact Hz'].
    - unfold minute_x, minute_y, minute_angle in Hz'. rewrite <- surjective_pairing in Hz'.
      apply (hand_inside fl u minute_length minute_degrees 24 z' Hu Hfl);
        [cbv; split; discriminate | cbv; split; discriminate | lia | exact Hz']. }
  split; [exact Hin|]. intros ->. lra.
Qed.

Lemma on_stroke_start (p q : R * R) (width : Z) : (0 <= width)%Z -> on_stroke p q width p.
Proof.
  intros Hw. apply IZR_le in Hw. exists 0%R. split; [lra|].
  unfold dist2. cbn [fst snd].
  replace ((fst p - (fst p + 0 * (fst q - fst p))) * (fst p - (fst p + 0 * (fst q - fst p))) +
           (snd p - (snd p + 0 * (snd q - snd p))) * (snd p - (snd p + 0 * (snd q - snd p))))%R
    with 0%R by ring.
  nra.
Qed.

Lemma markers_clear_of_hands_witness :
  small 0 /\ accurate 0 exact_fl /\ 0 <= 3 < 12 /\
  on_stroke (x1 exact_fl 3, y1 exact_fl 3) (x2 exact_fl 3, y2 exact_fl 3) 20
    (x1 exact_fl 3, y1 exact_fl 3) /\
  (289 * 289 <= dist2 (x1 exact_fl 3, y1 exact_fl 3) centre <= 361 * 361)%R.
Proof.
  assert (Hz : on_stroke (x1 exact_fl 3, y1 exact_fl 3) (x2 exact_fl 3, y2 exact_fl 3) 20
                 (x1 exact_fl 3, y1 exact_fl 3)) by (apply on_stroke_start; lia).
  split; [exact small_0|]. split; [exact exact_fl_accurate|]. split; [lia|].
  split; [exact Hz|].
  exact (proj1 (markers_clear_of_hands exact_fl 0 3 _ small_0 exact_fl_accurate
                  ltac:(lia) Hz)).
Defined.

(** ** Opposite markers *)

Lemma ideal_point_opposite (len d : Z) :
  ideal_point len (d + 180) =
  ((1024 - fst (ideal_point len d))%R, (1024 - snd (ideal_point len d))%R).
Proof.
  unfold ideal_point. cbn [fst snd].
  assert (E : degrees (d + 180) = (degrees d + PI)%R).
  { unfold degrees. rewrite plus_IZR. field. }
  rewrite E, neg_cos, neg_sin, IZR_center. f_equal; ring.
Qed.

(** X8: the markers come in opposite pairs.  Marker [i + 6] is marker [i]
    turned by 180 degrees: their outer ends, and their inner ends, are
    mirror images through the centre (512, 512), within [10^-6] for
    arithmetic accurate to [u <= 10^-12]. *)
Theorem markers_opposite (fl : FloatEnv) (u : R) (i : Z) :
  small u -> accurate u fl -> 0 <= i < 6 ->
  marker_degrees (i + 6) = marker_degrees i + 180 /\
  (Rabs (x1 fl (i + 6) + x1 fl i - 1024) <= / 1000000)%R /\
  (Rabs (y1 fl (i + 6) + y1 fl i - 1024) <= / 1000000)%R /\
  (Rabs (x2 fl (i + 6) + x2 fl i - 1024) <= / 1000000)%R /\
  (Rabs (y2 fl (i + 6) + y2 fl i - 1024) <= / 1000000)%R.
Proof.
  intros Hu Hfl Hi.
  assert (Hdeg : marker_degrees (i + 6) = marker_degrees i + 180)
    by (unfold marker_degrees; lia).
  split; [exact Hdeg|].
  assert (Hd : -360 <= marker_degrees i <= 360) by (unfold marker_degrees; lia).
  assert (Hd' : -360 <= marker_degrees (i + 6) <= 360) by (unfold marker_degrees; lia).
  assert (Hpair : forall len, 0 <= len <= 400 ->
            (Rabs (fst (polar fl len (math_radians fl (IZR (marker_degrees (i + 6))))) +
                   fst (polar fl len (math_radians fl (IZR (marker_degrees i)))) - 1024)
             <= / 1000000)%R /\
            (Rabs (snd (polar fl len (math_radians fl (IZR (marker_degrees (i + 6))))) +
                   snd (polar fl len (math_radians fl (IZR (marker_degrees i)))) - 1024)
             <= / 1000000)%R).
  { intros len Hlen.
    destruct (polar_near fl u Hu Hfl len _ Hlen Hd) as [Ha1 Ha2].
    destruct (polar_near fl u Hu Hfl len _ Hlen Hd') as [Hb1 Hb2].
    rewrite Hdeg, ideal_point_opposite in Hb1, Hb2. cbn [fst snd] in Hb1, Hb2.
    apply Rabs_le_between in Ha1, Ha2, Hb1, Hb2. destruct Hu as [Hu0 Hu1].
    rewrite Hdeg. split; apply Rabs_le; lra. }
  destruct (Hpair outer_radius ltac:(cbv; split; discriminate)) as [Hx1 Hy1].
  destruct (Hpair inner_radius ltac:(cbv; split; discriminate)) as [Hx2 Hy2].
  repeat split; assumption.
Qed.

Lemma markers_opposite_witness :
  small 0 /\ accurate 0 exact_fl /\ 0 <= 2 < 6 /\
  (Rabs (x1 exact_fl 8 + x1 exact_fl 2 - 1024) <= / 1000000)%R.
Proof.
  split; [exact small_0|]. split; [exact exact_fl_accurate|]. split; [lia|].
  exact (proj1 (proj2 (markers_opposite exact_fl 0 2 small_0 exact_fl_accurate
                         ltac:(lia)))).
Defined.

(** ** Where the hands point *)

Section MinuteHand.

Local Open Scope R_scope.

Lemma degrees_minus_80 : degrees (-80) = - (PI / 2 - PI / 18).
Proof. unfold degrees. field. Qed.

Lemma degrees_minus_30 : degrees (-30) = - (PI / 6).
Proof. unfold degrees. field. Qed.

(** From [sin 3a = 3 sin a - 4 sin^3 a] at [3a = pi / 6]. *)
Lemma sin_PI18_bounds : 1 / 6 <= sin (PI / 18) < 1 / 2.
Proof.
  pose proof PI_RGT_0 as Hpi.
  assert (Hpos : 0 < sin (PI / 18)).
  { rewrite <- sin_0. apply sin_increasing_1; lra. }
  split.
  - assert (H3 : sin (PI / 6) =
                 3 * sin (PI / 18) - 4 * (sin (PI / 18) * sin (PI / 18) * sin (PI / 18))).
    { replace (PI / 6) with (PI / 18 + 2 * (PI / 18)) by field.
      rewrite sin_plus, sin_2a, cos_2a_sin.
      pose proof (sin2_cos2 (PI / 18)) as Hu. unfold Rsqr in Hu.
      replace (cos (PI / 18) * (2 * sin (PI / 18) * cos (PI / 18)))
        with (2 * sin (PI / 18) * (cos (PI / 18) * cos (PI / 18))) by ring.
      replace (cos (PI / 18) * cos (PI / 18))
        with (1 - sin (PI / 18) * sin (PI / 18)) by lra.
      ring. }
    rewrite sin_PI6 in H3.
    assert (0 <= sin (PI / 18) * sin (PI / 18) * sin (PI / 18)).
    { apply Rmult_le_pos; [|lra]. pose proof (sum_sqr_nonneg (sin (PI / 18)) 0). lra. }
    lra.
  - rewrite <- sin_PI6. apply sin_increasing_1; lra.
Qed.

Lemma cos_PI18_bounds : sqrt 3 / 2 < cos (PI / 18) <= 1.
Proof.
  pose proof PI_RGT_0 as Hpi. split.
  - rewrite <- cos_PI6. apply cos_decreasing_1; lra.
  - apply COS_bound.
Qed.

Lemma ideal_minute_point :
  ideal_point 260 (-80) = (512 + 260 * sin (PI / 18), 512 - 260 * cos (PI / 18)).
Proof.
  unfold ideal_point. rewrite degrees_minus_80, cos_neg, sin_neg, cos_shift, sin_shift.
  rewrite IZR_center. f_equal; ring.
Qed.

Lemma ideal_marker_2_inner : fst (ideal_point 300 (-30)) = 512 + 150 * sqrt 3.
Proof.
  unfold ideal_point. cbn [fst]. rewrite degrees_minus_30, cos_neg, cos_PI6, IZR_center.
  field.
Qed.

End MinuteHand.

(** X9: where the hands point.  The hour hand is computed at the angle of
    marker 10.  The minute hand's angle, -80 degrees, is that of no
    marker: it lies between marker 0 (straight up) and marker 1, ten
    degrees past twelve.  Its end point, within [10^-6] of
    [(512 + 260 cos(-80deg), 512 + 260 sin(-80deg))], has
    [555 < x < 643] and [251 < y < 287], while marker 2 begins right of
    [x = 771]: the hand does not point at the 2 of the dial. *)
Theorem minute_hand_direction (fl : FloatEnv) (u : R) :
  small u -> accurate u fl ->
  hour_angle fl = marker_angle fl 10 /\
  marker_degrees 0 < minute_degrees < marker_degrees 1 /\
  (forall i, 0 <= i < 12 -> (marker_degrees i - minute_degrees) mod 360 <> 0) /\
  near (/ 1000000) (minute_x fl, minute_y fl) (ideal_point 260 (-80)) /\
  (555 < minute_x fl < 643)%R /\ (251 < minute_y fl < 287)%R /\
  (771 < x2 fl 2)%R.
Proof.
  intros Hu Hfl.
  split; [reflexivity|]. split; [cbv; split; reflexivity|].
  split.
  { intros i Hi. unfold marker_degrees, minute_degrees.
    assert (Hcases : i = 0 \/ i = 1 \/ i = 2 \/ i = 3 \/ i = 4 \/ i = 5 \/ i = 6 \/
                     i = 7 \/ i = 8 \/ i = 9 \/ i = 10 \/ i = 11) by lia.
    repeat (destruct Hcases as [->|Hcases]; [vm_compute; discriminate|]).
    subst i. vm_compute. discriminate. }
  assert (Hn : near (/ 1000000) (minute_x fl, minute_y fl) (ideal_point 260 (-80))).
  { destruct (polar_near fl u Hu Hfl 260 (-80) ltac:(lia) ltac:(lia)) as [H1 H2].
    destruct Hu as [Hu0 Hu1].
    split; cbn [fst snd]; (eapply Rle_trans; [eassumption | lra]). }
  split; [exact Hn|].
  assert (Hm : near (/ 1000000) (x2 fl 2, y2 fl 2) (ideal_point 300 (-30))).
  { destruct (polar_near fl u Hu Hfl 300 (-30) ltac:(lia) ltac:(lia)) as [H1 H2].
    destruct Hu as [Hu0 Hu1].
    split; cbn [fst snd]; (eapply Rle_trans; [eassumption | lra]). }
  destruct Hn as [H1 H2]. rewrite ideal_minute_point in H1, H2. cbn [fst snd] in H1, H2.
  destruct Hm as [H3 _]. rewrite ideal_marker_2_inner in H3. cbn [fst] in H3.
  apply Rabs_le_between in H1, H2, H3.
  pose proof sin_PI18_bounds. pose proof cos_PI18_bounds. pose proof sqrt3_bounds.
  repeat split; lra.
Qed.

Lemma minute_hand_direction_witness :
  small 0 /\ accurate 0 exact_fl /\
  (555 < minute_x exact_fl < 643)%R /\ (251 < minute_y exact_fl < 287)%R.
Proof.
  split; [exact small_0|]. split; [exact exact_fl_accurate|].
  pose proof (minute_hand_direction exact_fl 0 small_0 exact_fl_accurate)
    as (_ & _ & _ & _ & H1 & H2 & _).
  split; [exact H1 | exact H2].
Defined.
